(** * A shallow embedding of the ATmega16 TWI (I2C) master driver

    Source: [i2c/i2c.h] and [i2c/i2c.c].  The driver talks to four
    memory-mapped registers of the TWI peripheral (TWBR, TWSR, TWCR, TWDR),
    busy-waits on the TWINT flag and reports SUCCESS or ERROR.

    The embedding keeps the C functions one to one.  Registers and bytes are
    [Z] values, the peripheral is an explicit state with a scripted list of
    answers, and every driver function is a computation in a small
    state/trace/error monad.  The busy-wait loop takes a fuel argument: running
    out of fuel is the outcome [Timeout], which stands for "still polling". *)

From stdpp Require Import list.
From Stdlib Require Import ZArith Lia.

Local Open Scope Z_scope.

(** ** Constants of [i2c.h] *)

Definition MT_START : Z := 0x08.
Definition MT_REP_START : Z := 0x10.
Definition MT_SLA_WRITE_ACK : Z := 0x18.
Definition MT_SLA_WRITE_NACK : Z := 0x20.
Definition MT_DATA_TRANSMITTED_ACK : Z := 0x28.
Definition MT_DATA_TRANSMITTED_NACK : Z := 0x30.
Definition MT_ARB_LOST : Z := 0x38.
Definition MT_SLA_READ_ACK : Z := 0x40.
Definition MT_SLA_READ_NACK : Z := 0x48.
Definition MT_DATA_RECEIVED_ACK : Z := 0x50.
Definition MT_DATA_RECEIVED_NACK : Z := 0x58.

Definition I2C_WRITE : Z := 0.
Definition I2C_READ : Z := 1.

Definition SUCCESS : Z := 0.
Definition ERROR : Z := 1.

(** Modelled from the spec: the header [<avr/io.h>] is not part of the
    repository.  Section 6 of the specification lists the bits of the control
    register (operation-complete flag, acknowledge-enable, start-request,
    stop-request, enable); their positions are those of the ATmega16 part. *)
Definition TWINT : Z := 7.
Definition TWEA : Z := 6.
Definition TWSTA : Z := 5.
Definition TWSTO : Z := 4.
Definition TWEN : Z := 2.

(** [(1 << n)] *)
Definition bit (n : Z) : Z := Z.shiftl 1 n.

(** Conversion to [uint8_t]. *)
Definition u8 (x : Z) : Z := x mod 256.

(** ** The peripheral and the caller's buffer *)

(** One answer of the peripheral to a triggered bus operation: after
    [r_delay] further polls of TWCR the TWINT flag is raised ([None]: it never
    is), and TWSR and TWDR then hold [r_status] and [r_data]. *)
Record response := Response {
  r_delay : option nat;
  r_status : Z;
  r_data : Z
}.

(** The machine state: the four TWI registers, the operation in flight, the
    answers the bus will give ([script], read at [cursor]), and the memory
    behind the [uint8_t *data] argument of the transfer functions. *)
Record state := State {
  TWBR : Z;
  TWSR : Z;
  TWCR : Z;
  TWDR : Z;
  pending : option response;
  script : nat -> response;
  cursor : nat;
  buf : list Z
}.

Definition set_TWBR (v : Z) (s : state) : state :=
  State (u8 v) (TWSR s) (TWCR s) (TWDR s) (pending s) (script s) (cursor s) (buf s).

(** Only the prescaler bits of TWSR are writable. *)
Definition set_TWSR (v : Z) (s : state) : state :=
  State (TWBR s) (Z.lor (Z.land (TWSR s) 0xF8) (Z.land v 0x03)) (TWCR s) (TWDR s)
        (pending s) (script s) (cursor s) (buf s).

Definition set_TWDR (v : Z) (s : state) : state :=
  State (TWBR s) (TWSR s) (TWCR s) (u8 v) (pending s) (script s) (cursor s) (buf s).

Definition set_buf (b : list Z) (s : state) : state :=
  State (TWBR s) (TWSR s) (TWCR s) (TWDR s) (pending s) (script s) (cursor s) b.

Definition flag_set (v : Z) : bool := negb (Z.land v (bit TWINT) =? 0).

(** Modelled from the spec: the peripheral is hardware, not code of the
    repository; sections 4.1, 4.3 and 6 of the specification describe its
    registers (a store to the control register triggers an operation, the
    operation-complete flag reports its end, stop is not awaited).
    A store to TWCR: writing one to TWINT clears the flag; with TWSTO the
    bus is released and no completion follows; otherwise, with TWEN, the next
    bus operation starts and the next answer of the script becomes pending.
    Writing zero to TWINT leaves the flag as it is. *)
Definition write_TWCR (v : Z) (s : state) : state :=
  let w := u8 v in
  if flag_set w then
    let stored := Z.ldiff w (bit TWINT) in
    if negb (Z.land w (bit TWSTO) =? 0) then
      State (TWBR s) (TWSR s) stored (TWDR s) None (script s) (cursor s) (buf s)
    else if negb (Z.land w (bit TWEN) =? 0) then
      State (TWBR s) (TWSR s) stored (TWDR s)
            (Some (script s (cursor s))) (script s) (S (cursor s)) (buf s)
    else
      State (TWBR s) (TWSR s) stored (TWDR s) (pending s) (script s) (cursor s) (buf s)
  else
    State (TWBR s) (TWSR s) (Z.lor w (Z.land (TWCR s) (bit TWINT))) (TWDR s)
          (pending s) (script s) (cursor s) (buf s).

(** Modelled from the spec: the peripheral is hardware, not code of the
    repository (see [write_TWCR]).
    A load from TWCR: one poll.  The pending operation advances by one step;
    when its delay has elapsed the flag is raised and TWSR, TWDR are updated. *)
Definition read_TWCR (s : state) : Z * state :=
  match pending s with
  | Some r =>
      match r_delay r with
      | Some O =>
          let c := Z.lor (TWCR s) (bit TWINT) in
          (c, State (TWBR s) (u8 (r_status r)) c (u8 (r_data r)) None
                    (script s) (cursor s) (buf s))
      | Some (S d) =>
          (TWCR s, State (TWBR s) (TWSR s) (TWCR s) (TWDR s)
                         (Some (Response (Some d) (r_status r) (r_data r)))
                         (script s) (cursor s) (buf s))
      | None => (TWCR s, s)
      end
  | None => (TWCR s, s)
  end.

(** ** Events, outcomes and the monad *)

(** What a run of the driver does, in order: the bus primitives it calls, the
    status checks with their verdict, and the accesses to [data[i]]. *)
Inductive event :=
| EvStart
| EvStop
| EvTransmit (b : Z)
| EvReceiveAck
| EvReceiveNack
| EvCheck (code : Z) (ok : bool)
| EvLoad (i : Z)
| EvStore (i : Z) (v : Z).

Inductive outcome (A : Type) :=
| Ret (a : A) (s : state) (tr : list event)
| Timeout
| Fault.
Arguments Ret {A} a s tr.
Arguments Timeout {A}.
Arguments Fault {A}.

Definition M (A : Type) : Type := state -> outcome A.

Definition prefix_trace {A} (t : list event) (o : outcome A) : outcome A :=
  match o with
  | Ret a s tr => Ret a s (t ++ tr)
  | Timeout => Timeout
  | Fault => Fault
  end.

#[global] Instance M_ret : MRet M := fun A a s => Ret a s [].
#[global] Instance M_bind : MBind M := fun A B k m s =>
  match m s with
  | Ret a s1 t1 => prefix_trace t1 (k a s1)
  | Timeout => Timeout
  | Fault => Fault
  end.

Definition emit (e : event) : M unit := fun s => Ret tt s [e].
Definition modify (f : state -> state) : M unit := fun s => Ret tt (f s) [].
Definition gets {A} (f : state -> A) : M A := fun s => Ret (f s) s [].

(** [data[i]] as an rvalue and as an lvalue; an index outside the object is
    undefined behaviour in C and the outcome [Fault] here. *)
Definition load (i : Z) : M Z := fun s =>
  match buf s !! Z.to_nat i with
  | Some v => Ret v s [EvLoad i]
  | None => Fault
  end.

Definition store (i v : Z) : M unit := fun s =>
  if (Z.to_nat i <? length (buf s))%nat
  then Ret tt (set_buf (<[Z.to_nat i := v]> (buf s)) s) [EvStore i v]
  else Fault.

(** ** Private functions of [i2c.c] *)

(** [while (!(TWCR & (1 << TWINT)));] *)
Fixpoint i2c_wait_until_finish (fuel : nat) : M unit := fun s =>
  match fuel with
  | O => Timeout
  | S f =>
      let (v, s1) := read_TWCR s in
      if Z.land v (bit TWINT) =? 0 then i2c_wait_until_finish f s1
      else Ret tt s1 []
  end.

Definition i2c_start (fuel : nat) : M unit :=
  emit EvStart ;;
  modify (write_TWCR (Z.lor (Z.lor (bit TWINT) (bit TWSTA)) (bit TWEN))) ;;
  i2c_wait_until_finish fuel.

Definition i2c_transmit (fuel : nat) (byte : Z) : M unit :=
  emit (EvTransmit byte) ;;
  modify (set_TWDR byte) ;;
  modify (write_TWCR (Z.lor (bit TWINT) (bit TWEN))) ;;
  i2c_wait_until_finish fuel.

Definition i2c_receive_ack (fuel : nat) : M Z :=
  emit EvReceiveAck ;;
  modify (write_TWCR (Z.lor (Z.lor (bit TWINT) (bit TWEA)) (bit TWEN))) ;;
  i2c_wait_until_finish fuel ;;
  gets TWDR.

Definition i2c_receive_nack (fuel : nat) : M Z :=
  emit EvReceiveNack ;;
  modify (write_TWCR (Z.lor (bit TWINT) (bit TWEN))) ;;
  i2c_wait_until_finish fuel ;;
  gets TWDR.

Definition i2c_stop : M unit :=
  emit EvStop ;;
  modify (write_TWCR (Z.lor (Z.lor (bit TWINT) (bit TWSTO)) (bit TWEN))).

Definition i2c_check_status (status_code : Z) : M Z := fun s =>
  if Z.land (TWSR s) 0xF8 =? status_code
  then Ret SUCCESS s [EvCheck status_code true]
  else Ret ERROR s [EvCheck status_code false].

(** ** Public functions of [i2c.c] *)

(** The rvalue [TWCR]. *)
Definition load_TWCR : M Z := fun s =>
  let (v, s1) := read_TWCR s in Ret v s1 [].

Definition i2c_init : M unit :=
  modify (set_TWBR 18) ;;
  modify (set_TWSR 0) ;;
  v ← load_TWCR ;
  modify (write_TWCR (Z.lor v (bit TWEN))).

Definition i2c_is_device_connected (fuel : nat) (address : Z) : M Z :=
  i2c_start fuel ;;
  r ← i2c_check_status MT_START ;
  if r =? ERROR then mret ERROR else
  i2c_transmit fuel (u8 (Z.lor (Z.shiftl address 1) I2C_WRITE)) ;;
  r ← i2c_check_status MT_SLA_WRITE_ACK ;
  if r =? ERROR then i2c_stop ;; mret ERROR else
  i2c_stop ;;
  mret SUCCESS.

Definition i2c_write_no_reg (fuel : nat) (address data : Z) : M Z :=
  i2c_start fuel ;;
  r ← i2c_check_status MT_START ;
  if r =? ERROR then mret ERROR else
  i2c_transmit fuel (u8 (Z.lor (Z.shiftl address 1) I2C_WRITE)) ;;
  r ← i2c_check_status MT_SLA_WRITE_ACK ;
  if r =? ERROR then i2c_stop ;; mret ERROR else
  i2c_transmit fuel data ;;
  r ← i2c_check_status MT_DATA_TRANSMITTED_ACK ;
  if r =? ERROR then i2c_stop ;; mret ERROR else
  i2c_stop ;;
  mret SUCCESS.

Definition i2c_write_with_reg (fuel : nat) (address reg data : Z) : M Z :=
  i2c_start fuel ;;
  r ← i2c_check_status MT_START ;
  if r =? ERROR then mret ERROR else
  i2c_transmit fuel (u8 (Z.lor (Z.shiftl address 1) I2C_WRITE)) ;;
  r ← i2c_check_status MT_SLA_WRITE_ACK ;
  if r =? ERROR then i2c_stop ;; mret ERROR else
  i2c_transmit fuel reg ;;
  r ← i2c_check_status MT_DATA_TRANSMITTED_ACK ;
  if r =? ERROR then i2c_stop ;; mret ERROR else
  i2c_transmit fuel data ;;
  r ← i2c_check_status MT_DATA_TRANSMITTED_ACK ;
  if r =? ERROR then i2c_stop ;; mret ERROR else
  i2c_stop ;;
  mret SUCCESS.

(** The loop [for (int i = 0; i < len; i++)] of the two multi-byte writes,
    entered with [n] iterations left at index [i].  [Some r] means the
    function has returned [r] from inside the loop. *)
Fixpoint transmit_loop (fuel : nat) (n : nat) (i : Z) : M (option Z) :=
  match n with
  | O => mret None
  | S n' =>
      b ← load i ;
      i2c_transmit fuel b ;;
      r ← i2c_check_status MT_DATA_TRANSMITTED_ACK ;
      if r =? ERROR then i2c_stop ;; mret (Some ERROR) else
      transmit_loop fuel n' (i + 1)
  end.

Definition i2c_write_multi_no_reg (fuel : nat) (address len : Z) : M Z :=
  i2c_start fuel ;;
  r ← i2c_check_status MT_START ;
  if r =? ERROR then mret ERROR else
  i2c_transmit fuel (u8 (Z.lor (Z.shiftl address 1) I2C_WRITE)) ;;
  r ← i2c_check_status MT_SLA_WRITE_ACK ;
  if r =? ERROR then i2c_stop ;; mret ERROR else
  q ← transmit_loop fuel (Z.to_nat len) 0 ;
  match q with
  | Some r => mret r
  | None => i2c_stop ;; mret SUCCESS
  end.

Definition i2c_write_multi_with_reg (fuel : nat) (address reg len : Z) : M Z :=
  i2c_start fuel ;;
  r ← i2c_check_status MT_START ;
  if r =? ERROR then mret ERROR else
  i2c_transmit fuel (u8 (Z.lor (Z.shiftl address 1) I2C_WRITE)) ;;
  r ← i2c_check_status MT_SLA_WRITE_ACK ;
  if r =? ERROR then i2c_stop ;; mret ERROR else
  i2c_transmit fuel reg ;;
  r ← i2c_check_status MT_DATA_TRANSMITTED_ACK ;
  if r =? ERROR then i2c_stop ;; mret ERROR else
  q ← transmit_loop fuel (Z.to_nat len) 0 ;
  match q with
  | Some r => mret r
  | None => i2c_stop ;; mret SUCCESS
  end.

Definition i2c_read_no_reg (fuel : nat) (address : Z) : M Z :=
  i2c_start fuel ;;
  r ← i2c_check_status MT_START ;
  if r =? ERROR then mret ERROR else
  i2c_transmit fuel (u8 (Z.lor (Z.shiftl address 1) I2C_READ)) ;;
  r ← i2c_check_status MT_SLA_READ_ACK ;
  if r =? ERROR then i2c_stop ;; mret ERROR else
  d ← i2c_receive_nack fuel ;
  store 0 d ;;
  r ← i2c_check_status MT_DATA_RECEIVED_NACK ;
  if r =? ERROR then i2c_stop ;; mret ERROR else
  i2c_stop ;;
  mret SUCCESS.

Definition i2c_read_with_reg (fuel : nat) (address reg : Z) : M Z :=
  i2c_start fuel ;;
  r ← i2c_check_status MT_START ;
  if r =? ERROR then mret ERROR else
  i2c_transmit fuel (u8 (Z.lor (Z.shiftl address 1) I2C_WRITE)) ;;
  r ← i2c_check_status MT_SLA_WRITE_ACK ;
  if r =? ERROR then i2c_stop ;; mret ERROR else
  i2c_transmit fuel reg ;;
  r ← i2c_check_status MT_DATA_TRANSMITTED_ACK ;
  if r =? ERROR then i2c_stop ;; mret ERROR else
  i2c_start fuel ;;
  r ← i2c_check_status MT_REP_START ;
  if r =? ERROR then mret ERROR else
  i2c_transmit fuel (u8 (Z.lor (Z.shiftl address 1) I2C_READ)) ;;
  r ← i2c_check_status MT_SLA_READ_ACK ;
  if r =? ERROR then i2c_stop ;; mret ERROR else
  d ← i2c_receive_nack fuel ;
  store 0 d ;;
  r ← i2c_check_status MT_DATA_RECEIVED_NACK ;
  if r =? ERROR then i2c_stop ;; mret ERROR else
  i2c_stop ;;
  mret SUCCESS.

(** The loop [for (int i = 0; i < len; i++)] of the two multi-byte reads, with
    its test [i == (len - 1)]. *)
Fixpoint receive_loop (fuel : nat) (len : Z) (n : nat) (i : Z) : M (option Z) :=
  match n with
  | O => mret None
  | S n' =>
      if i =? len - 1 then
        d ← i2c_receive_nack fuel ;
        store i d ;;
        r ← i2c_check_status MT_DATA_RECEIVED_NACK ;
        if r =? ERROR then i2c_stop ;; mret (Some ERROR) else
        receive_loop fuel len n' (i + 1)
      else
        d ← i2c_receive_ack fuel ;
        store i d ;;
        r ← i2c_check_status MT_DATA_RECEIVED_ACK ;
        if r =? ERROR then i2c_stop ;; mret (Some ERROR) else
        receive_loop fuel len n' (i + 1)
  end.

Definition i2c_read_multi_no_reg (fuel : nat) (address len : Z) : M Z :=
  i2c_start fuel ;;
  r ← i2c_check_status MT_START ;
  if r =? ERROR then mret ERROR else
  i2c_transmit fuel (u8 (Z.lor (Z.shiftl address 1) I2C_READ)) ;;
  r ← i2c_check_status MT_SLA_READ_ACK ;
  if r =? ERROR then i2c_stop ;; mret ERROR else
  q ← receive_loop fuel len (Z.to_nat len) 0 ;
  match q with
  | Some r => mret r
  | None => i2c_stop ;; mret SUCCESS
  end.

Definition i2c_read_multi_with_reg (fuel : nat) (address reg len : Z) : M Z :=
  i2c_start fuel ;;
  r ← i2c_check_status MT_START ;
  if r =? ERROR then mret ERROR else
  i2c_transmit fuel (u8 (Z.lor (Z.shiftl address 1) I2C_WRITE)) ;;
  r ← i2c_check_status MT_SLA_WRITE_ACK ;
  if r =? ERROR then i2c_stop ;; mret ERROR else
  i2c_transmit fuel reg ;;
  r ← i2c_check_status MT_DATA_TRANSMITTED_ACK ;
  if r =? ERROR then i2c_stop ;; mret ERROR else
  i2c_start fuel ;;
  r ← i2c_check_status MT_REP_START ;
  if r =? ERROR then mret ERROR else
  i2c_transmit fuel (u8 (Z.lor (Z.shiftl address 1) I2C_READ)) ;;
  r ← i2c_check_status MT_SLA_READ_ACK ;
  if r =? ERROR then i2c_stop ;; mret ERROR else
  q ← receive_loop fuel len (Z.to_nat len) 0 ;
  match q with
  | Some r => mret r
  | None => i2c_stop ;; mret SUCCESS
  end.

(** A call of one of the nine transfer functions; the pointer argument is the
    buffer of the state. *)
Inductive operation :=
| IsDeviceConnected (address : Z)
| WriteNoReg (address data : Z)
| WriteWithReg (address reg data : Z)
| WriteMultiNoReg (address len : Z)
| WriteMultiWithReg (address reg len : Z)
| ReadNoReg (address : Z)
| ReadWithReg (address reg : Z)
| ReadMultiNoReg (address len : Z)
| ReadMultiWithReg (address reg len : Z).

Definition run_op (fuel : nat) (op : operation) : M Z :=
  match op with
  | IsDeviceConnected a => i2c_is_device_connected fuel a
  | WriteNoReg a d => i2c_write_no_reg fuel a d
  | WriteWithReg a r d => i2c_write_with_reg fuel a r d
  | WriteMultiNoReg a n => i2c_write_multi_no_reg fuel a n
  | WriteMultiWithReg a r n => i2c_write_multi_with_reg fuel a r n
  | ReadNoReg a => i2c_read_no_reg fuel a
  | ReadWithReg a r => i2c_read_with_reg fuel a r
  | ReadMultiNoReg a n => i2c_read_multi_no_reg fuel a n
  | ReadMultiWithReg a r n => i2c_read_multi_with_reg fuel a r n
  end.

(** A bus whose answers are the listed ones and that stays silent afterwards;
    [answer] is an answer at the first poll. *)
Definition silent : response := Response None 0 0.
Definition answer (status data : Z) : response := Response (Some 0%nat) status data.
Definition answers (l : list response) : nat -> response :=
  fun k => nth k l silent.
Definition idle (l : list response) (b : list Z) : state :=
  State 0 0xF8 0 0 None (answers l) 0 b.

(** * Vocabulary of the properties *)

(** [bs] transmitted and acknowledged, from index [i] on. *)
Fixpoint tx_phases (i : Z) (bs : list Z) : list event :=
  match bs with
  | [] => []
  | b :: bs' =>
      EvLoad i :: EvTransmit b :: EvCheck MT_DATA_TRANSMITTED_ACK true
        :: tx_phases (i + 1) bs'
  end.

(** [ds] received with acknowledge and stored, from index [i] on. *)
Fixpoint ack_phases (i : Z) (ds : list Z) : list event :=
  match ds with
  | [] => []
  | d :: ds' =>
      EvReceiveAck :: EvStore i d :: EvCheck MT_DATA_RECEIVED_ACK true
        :: ack_phases (i + 1) ds'
  end.




(** The status codes of [i2c.h]. *)
Definition status_codes : list Z :=
  [MT_START; MT_REP_START; MT_SLA_WRITE_ACK; MT_SLA_WRITE_NACK;
   MT_DATA_TRANSMITTED_ACK; MT_DATA_TRANSMITTED_NACK; MT_ARB_LOST;
   MT_SLA_READ_ACK; MT_SLA_READ_NACK; MT_DATA_RECEIVED_ACK;
   MT_DATA_RECEIVED_NACK].

(** The value a run returned, if it returned. *)
Definition verdict {A} (o : outcome A) : option A :=
  match o with
  | Ret r _ _ => Some r
  | _ => None
  end.

(** A store to TWCR that starts a bus operation. *)
Definition triggers (v : Z) : Prop :=
  flag_set (u8 v) = true /\
  (Z.land (u8 v) (bit TWSTO) =? 0) = true /\
  (Z.land (u8 v) (bit TWEN) =? 0) = false.

(** The state in which a pending operation with answer [r] completes. *)
Definition completed (r : response) (s : state) : state :=
  State (TWBR s) (u8 (r_status r)) (Z.lor (TWCR s) (bit TWINT)) (u8 (r_data r))
        None (script s) (cursor s) (buf s).

(** Calls of [i2c_read_no_reg] and [i2c_read_with_reg]. *)
Definition is_single_read (op : operation) : bool :=
  match op with
  | ReadNoReg _ | ReadWithReg _ _ => true
  | _ => false
  end.


(** SLA+W and SLA+R as the driver computes them. *)
Definition sla (address dir : Z) : Z := u8 (Z.lor (Z.shiftl address 1) dir).

(** The events of a successful run before its data phase: start, address,
    and for the register-addressed functions the register byte (and, for
    reads, the repeated start and the address again). *)
Definition preamble (op : operation) : list event :=
  match op with
  | IsDeviceConnected a | WriteNoReg a _ | WriteMultiNoReg a _ =>
      [EvStart; EvCheck MT_START true;
       EvTransmit (sla a I2C_WRITE); EvCheck MT_SLA_WRITE_ACK true]
  | WriteWithReg a reg _ | WriteMultiWithReg a reg _ =>
      [EvStart; EvCheck MT_START true;
       EvTransmit (sla a I2C_WRITE); EvCheck MT_SLA_WRITE_ACK true;
       EvTransmit reg; EvCheck MT_DATA_TRANSMITTED_ACK true]
  | ReadNoReg a | ReadMultiNoReg a _ =>
      [EvStart; EvCheck MT_START true;
       EvTransmit (sla a I2C_READ); EvCheck MT_SLA_READ_ACK true]
  | ReadWithReg a reg | ReadMultiWithReg a reg _ =>
      [EvStart; EvCheck MT_START true;
       EvTransmit (sla a I2C_WRITE); EvCheck MT_SLA_WRITE_ACK true;
       EvTransmit reg; EvCheck MT_DATA_TRANSMITTED_ACK true;
       EvStart; EvCheck MT_REP_START true;
       EvTransmit (sla a I2C_READ); EvCheck MT_SLA_READ_ACK true]
  end.


(** The bytes put on the bus, in order. *)
Definition transmitted (tr : list event) : list Z :=
  omap (fun e => match e with EvTransmit b => Some b | _ => None end) tr.

(** The [len] argument of a call of a multi-byte read. *)
Definition multi_read_len (op : operation) : option Z :=
  match op with
  | ReadMultiNoReg _ n | ReadMultiWithReg _ _ n => Some n
  | _ => None
  end.

(** The [address] and [reg] arguments of a register-addressed read. *)
Definition reg_read_args (op : operation) : option (Z * Z) :=
  match op with
  | ReadWithReg a reg | ReadMultiWithReg a reg _ => Some (a, reg)
  | _ => None
  end.

(** The [address] argument of a call. *)
Definition op_address (op : operation) : Z :=
  match op with
  | IsDeviceConnected a | WriteNoReg a _ | WriteWithReg a _ _
  | WriteMultiNoReg a _ | WriteMultiWithReg a _ _
  | ReadNoReg a | ReadWithReg a _ | ReadMultiNoReg a _
  | ReadMultiWithReg a _ _ => a
  end.

(** The direction bits of the address phases of a complete transaction. *)
Definition directions (op : operation) : list Z :=
  match op with
  | IsDeviceConnected _ | WriteNoReg _ _ | WriteWithReg _ _ _
  | WriteMultiNoReg _ _ | WriteMultiWithReg _ _ _ => [I2C_WRITE]
  | ReadNoReg _ | ReadMultiNoReg _ _ => [I2C_READ]
  | ReadWithReg _ _ | ReadMultiWithReg _ _ _ => [I2C_WRITE; I2C_READ]
  end.

(** The address bytes of a trace: on the bus, the byte that follows a start
    (or repeated start) condition and its check is the address byte. *)
Fixpoint address_bytes (tr : list event) : list Z :=
  match tr with
  | [] => []
  | e :: rest =>
      match e, rest with
      | EvStart, EvCheck _ _ :: EvTransmit b :: _ => b :: address_bytes rest
      | _, _ => address_bytes rest
      end
  end.

(** The machine after [n] polls of TWCR, and whether the poll after those
    reads the TWINT flag set. *)
Fixpoint polls (n : nat) (s : state) : state :=
  match n with
  | O => s
  | S n' => polls n' (snd (read_TWCR s))
  end.

Definition flag_at (n : nat) (s : state) : bool :=
  flag_set (fst (read_TWCR (polls n s))).

(** The next [N] answers of the bus arrive within the patience [fuel] of the
    wait loop, and the buffer has [L] cells. *)
Definition ready (fuel L N : nat) (s : state) : Prop :=
  length (buf s) = L /\
  forall k, (k < N)%nat ->
    exists d, r_delay (script s (cursor s + k)) = Some d /\ (d < fuel)%nat.

(** [m] returns, without a fault, after at most [N] bus operations. *)
Definition consumes {A} (fuel L N : nat) (m : M A) : Prop :=
  forall K s, ready fuel L (N + K) s ->
    exists a s' tr, m s = Ret a s' tr /\ ready fuel L K s'.

(** The bus operations a call can trigger. *)
Definition max_triggers (op : operation) : nat :=
  match op with
  | IsDeviceConnected _ => 2
  | WriteNoReg _ _ => 3
  | WriteWithReg _ _ _ => 4
  | WriteMultiNoReg _ n => 2 + Z.to_nat n
  | WriteMultiWithReg _ _ n => 3 + Z.to_nat n
  | ReadNoReg _ => 3
  | ReadWithReg _ _ => 6
  | ReadMultiNoReg _ n => 2 + Z.to_nat n
  | ReadMultiWithReg _ _ n => 5 + Z.to_nat n
  end.

(** The cells a call accesses behind its [data] pointer. *)
Definition buffer_need (op : operation) : nat :=
  match op with
  | ReadNoReg _ | ReadWithReg _ _ => 1
  | WriteMultiNoReg _ n | WriteMultiWithReg _ _ n
  | ReadMultiNoReg _ n | ReadMultiWithReg _ _ n => Z.to_nat n
  | _ => 0
  end.

(** The peripheral raises TWINT after every bus operation it is asked for. *)
Definition hardware_answers (s : state) : Prop :=
  forall k, r_delay (script s k) <> None.

(** ** Vocabulary of the further properties *)

(** The same call on another address. *)
Definition set_address (a : Z) (op : operation) : operation :=
  match op with
  | IsDeviceConnected _ => IsDeviceConnected a
  | WriteNoReg _ d => WriteNoReg a d
  | WriteWithReg _ reg d => WriteWithReg a reg d
  | WriteMultiNoReg _ n => WriteMultiNoReg a n
  | WriteMultiWithReg _ reg n => WriteMultiWithReg a reg n
  | ReadNoReg _ => ReadNoReg a
  | ReadWithReg _ reg => ReadWithReg a reg
  | ReadMultiNoReg _ n => ReadMultiNoReg a n
  | ReadMultiWithReg _ reg n => ReadMultiWithReg a reg n
  end.

(** The probe and the four writes. *)
Definition is_write (op : operation) : bool :=
  match op with
  | IsDeviceConnected _ | WriteNoReg _ _ | WriteWithReg _ _ _
  | WriteMultiNoReg _ _ | WriteMultiWithReg _ _ _ => true
  | _ => false
  end.

(** A store through [data], or the reception of a byte. *)
Definition is_inbound (e : event) : bool :=
  match e with
  | EvStore _ _ | EvReceiveAck | EvReceiveNack => true
  | _ => false
  end.

Definition is_load (e : event) : bool :=
  match e with
  | EvLoad _ => true
  | _ => false
  end.

(** The bytes a complete transaction puts on the bus, in order, when [data]
    points to [b]: SLA+W or SLA+R, the register byte, the data bytes. *)
Definition payload (op : operation) (b : list Z) : list Z :=
  match op with
  | IsDeviceConnected a => [sla a I2C_WRITE]
  | WriteNoReg a d => [sla a I2C_WRITE; d]
  | WriteWithReg a reg d => [sla a I2C_WRITE; reg; d]
  | WriteMultiNoReg a n => sla a I2C_WRITE :: take (Z.to_nat n) b
  | WriteMultiWithReg a reg n => sla a I2C_WRITE :: reg :: take (Z.to_nat n) b
  | ReadNoReg a | ReadMultiNoReg a _ => [sla a I2C_READ]
  | ReadWithReg a reg | ReadMultiWithReg a reg _ =>
      [sla a I2C_WRITE; reg; sla a I2C_READ]
  end.

(** The discipline of a trace: a bus operation (start, transmit, receive) is
    issued only when the previous one has been checked, a check only when an
    operation awaits it, a received byte is stored before its check, a byte
    is loaded only between operations, and nothing follows stop.
    [unchecked] tells whether an operation awaits its check. *)
Fixpoint disciplined (unchecked : bool) (tr : list event) : bool :=
  match tr with
  | [] => negb unchecked
  | e :: tr' =>
      match e with
      | EvStart | EvTransmit _ | EvReceiveAck | EvReceiveNack =>
          negb unchecked && disciplined true tr'
      | EvCheck _ _ => unchecked && disciplined false tr'
      | EvStore _ _ => unchecked && disciplined true tr'
      | EvLoad _ => negb unchecked && disciplined false tr'
      | EvStop => negb unchecked && match tr' with [] => true | _ => false end
      end
  end.


(** What a run can tell of the machine at one of its points: how many answers
    of the bus have been consumed, the status and data registers, the buffer,
    and the operation in flight. *)
Record view := View {
  v_cursor : nat;
  v_status : Z;
  v_data : Z;
  v_buf : list Z;
  v_pending : option response
}.

Definition view_of (s : state) : view :=
  View (cursor s) (TWSR s) (TWDR s) (buf s) (pending s).

(** The view after an event, on a bus that answers [sc]: a start, transmit or
    receive consumes the next answer, which sets the status and data
    registers; a store changes one cell; stop leaves nothing in flight. *)
Definition advance (sc : nat -> response) (w : view) (e : event) : view :=
  match e with
  | EvStart | EvTransmit _ | EvReceiveAck | EvReceiveNack =>
      View (S (v_cursor w)) (u8 (r_status (sc (v_cursor w))))
           (u8 (r_data (sc (v_cursor w)))) (v_buf w) None
  | EvStore i v =>
      View (v_cursor w) (v_status w) (v_data w)
           (<[Z.to_nat i := v]> (v_buf w)) (v_pending w)
  | EvStop => View (v_cursor w) (v_status w) (v_data w) (v_buf w) None
  | EvCheck _ _ | EvLoad _ => w
  end.

Definition replay (sc : nat -> response) (w : view) (tr : list event) : view :=
  fold_left (advance sc) tr w.

(** An event that tells the truth in a view: the verdict of a check is the
    comparison of the masked status register, a stored byte is the data
    register, and the index of an access is inside the buffer. *)
Definition honest (w : view) (e : event) : Prop :=
  match e with
  | EvCheck c ok => ok = (Z.land (v_status w) 0xF8 =? c)
  | EvStore i v => v = v_data w /\ (Z.to_nat i < length (v_buf w))%nat
  | EvLoad i => (Z.to_nat i < length (v_buf w))%nat
  | _ => True
  end.

Fixpoint judged (sc : nat -> response) (w : view) (tr : list event) : Prop :=
  match tr with
  | [] => True
  | e :: tr' => honest w e /\ judged sc (advance sc w e) tr'
  end.

(** A computation whose returned runs are accounted for by their trace. *)
Definition tracks {A} (m : M A) : Prop :=
  forall s a s' tr, m s = Ret a s' tr ->
    script s' = script s /\
    judged (script s) (view_of s) tr /\
    view_of s' = replay (script s) (view_of s) tr.

Definition is_bus_op (e : event) : bool :=
  match e with
  | EvStart | EvTransmit _ | EvReceiveAck | EvReceiveNack => true
  | _ => false
  end.

(** The number of bus operations of a trace that await completion. *)
Fixpoint bus_ops (tr : list event) : nat :=
  match tr with
  | [] => 0
  | e :: tr' => if is_bus_op e then S (bus_ops tr') else bus_ops tr'
  end.

(** The status checks of a trace, in order: expected code and verdict. *)
Definition check_log (tr : list event) : list (Z * bool) :=
  omap (fun e => match e with EvCheck c ok => Some (c, ok) | _ => None end) tr.

(** The codes checked by the data phases of a multi-byte read of [n] bytes:
    data received with ACK returned for all bytes but the last, with NACK
    returned for the last. *)
Definition receive_codes (n : nat) : list Z :=
  match n with
  | O => []
  | S m => replicate m MT_DATA_RECEIVED_ACK ++ [MT_DATA_RECEIVED_NACK]
  end.

(** The status codes a complete transaction checks, in order. *)
Definition expected_codes (op : operation) : list Z :=
  match op with
  | IsDeviceConnected _ => [MT_START; MT_SLA_WRITE_ACK]
  | WriteNoReg _ _ => [MT_START; MT_SLA_WRITE_ACK; MT_DATA_TRANSMITTED_ACK]
  | WriteWithReg _ _ _ =>
      [MT_START; MT_SLA_WRITE_ACK; MT_DATA_TRANSMITTED_ACK;
       MT_DATA_TRANSMITTED_ACK]
  | WriteMultiNoReg _ n =>
      [MT_START; MT_SLA_WRITE_ACK] ++
      replicate (Z.to_nat n) MT_DATA_TRANSMITTED_ACK
  | WriteMultiWithReg _ _ n =>
      [MT_START; MT_SLA_WRITE_ACK; MT_DATA_TRANSMITTED_ACK] ++
      replicate (Z.to_nat n) MT_DATA_TRANSMITTED_ACK
  | ReadNoReg _ => [MT_START; MT_SLA_READ_ACK; MT_DATA_RECEIVED_NACK]
  | ReadWithReg _ _ =>
      [MT_START; MT_SLA_WRITE_ACK; MT_DATA_TRANSMITTED_ACK;
       MT_REP_START; MT_SLA_READ_ACK; MT_DATA_RECEIVED_NACK]
  | ReadMultiNoReg _ n =>
      [MT_START; MT_SLA_READ_ACK] ++ receive_codes (Z.to_nat n)
  | ReadMultiWithReg _ _ n =>
      [MT_START; MT_SLA_WRITE_ACK; MT_DATA_TRANSMITTED_ACK;
       MT_REP_START; MT_SLA_READ_ACK] ++ receive_codes (Z.to_nat n)
  end.

(** The number of stores through [data] in a trace. *)
Fixpoint stores (tr : list event) : nat :=
  match tr with
  | [] => 0
  | EvStore _ _ :: tr' => S (stores tr')
  | _ :: tr' => stores tr'
  end.

(** The number of bus operations of a read before its first receive, and the
    number of bytes it is asked for. *)
Definition first_data_answer (op : operation) : nat :=
  match op with
  | ReadNoReg _ | ReadMultiNoReg _ _ => 2
  | ReadWithReg _ _ | ReadMultiWithReg _ _ _ => 5
  | _ => 0
  end.

Definition read_count (op : operation) : nat :=
  match op with
  | ReadNoReg _ | ReadWithReg _ _ => 1
  | ReadMultiNoReg _ n | ReadMultiWithReg _ _ n => Z.to_nat n
  | _ => 0
  end.

(** [#define F_CPU 16000000] of [lcd16x2/main.c]; the comment of [i2c_init]
    assumes the same clock. *)
Definition F_CPU : Z := 16000000.

(** The SCL frequency in Hz, by the formula quoted in the comment of
    [i2c_init]: [F_CPU / (16 + (2 * TWBR * (4 ^ TWPS)))].  TWPS is the value
    of the prescaler bits TWPS1..0 of TWSR, so that, as the second comment of
    the function says, prescaler bits 0 mean a prescaler [4 ^ TWPS] of 1. *)
Definition scl_frequency (f_cpu twbr twps : Z) : Z :=
  f_cpu / (16 + 2 * twbr * 4 ^ twps).

(** The index of an access to the buffer. *)
Definition access_index (e : event) : option Z :=
  match e with
  | EvLoad i | EvStore i _ => Some i
  | _ => None
  end.

(** A computation that, on a buffer of at least [N] cells, never accesses the
    buffer out of bounds, keeps its length and touches only its first [N]
    cells. *)
Definition safe {A} (N : nat) (m : M A) : Prop :=
  forall s, (N <= length (buf s))%nat ->
    m s <> Fault /\
    forall a s' tr, m s = Ret a s' tr ->
      length (buf s') = length (buf s) /\
      forall e i, In e tr -> access_index e = Some i -> 0 <= i < Z.of_nat N.

(** The status the peripheral reports for the [k]-th bus operation of a call
    that starts in [s], masked as [i2c_check_status] masks it. *)
Definition answer_status (s : state) (k : nat) : Z :=
  Z.land (u8 (r_status (script s (cursor s + k)%nat))) 0xF8.

(** The answers to the bus operations from the [k]-th on carry the codes
    [cs], in order. *)
Fixpoint answers_match (s : state) (k : nat) (cs : list Z) : bool :=
  match cs with
  | [] => true
  | c :: cs' => (answer_status s k =? c) && answers_match s (S k) cs'
  end.

(** The codes a register-addressed function checks up to the register byte:
    start, SLA+W, register. *)
Definition register_codes : list Z :=
  [MT_START; MT_SLA_WRITE_ACK; MT_DATA_TRANSMITTED_ACK].

(** The codes a read checks before it receives its first byte. *)
Definition address_codes (op : operation) : list Z :=
  take (first_data_answer op) (expected_codes op).

(** The number of repeated starts of a trace: starts issued while the bus is
    [held], that is after a start and with no stop since. *)
Fixpoint repeated_starts (held : bool) (tr : list event) : nat :=
  match tr with
  | [] => 0
  | EvStart :: tr' => (if held then 1 else 0) + repeated_starts true tr'
  | EvStop :: tr' => repeated_starts false tr'
  | _ :: tr' => repeated_starts held tr'
  end.

(** * Lemmas and theorems *)

(** ** Running the monad backwards: what a returned run went through *)

Lemma bind_Ret {A B} (m : M A) (k : A -> M B) s b s2 tr :
  (m ≫= k) s = Ret b s2 tr ->
  exists a s1 t1 t2, m s = Ret a s1 t1 /\ k a s1 = Ret b s2 t2 /\ tr = t1 ++ t2.
Proof.
  unfold mbind, M_bind. destruct (m s) as [a s1 t1| |]; try discriminate.
  destruct (k a s1) as [b' s2' t2| |] eqn:Hk; simpl; try discriminate.
  intros [= -> -> <-]. eauto 10.
Qed.

Lemma ret_Ret {A} (a : A) s b s2 tr :
  (mret a : M A) s = Ret b s2 tr -> b = a /\ s2 = s /\ tr = [].
Proof. unfold mret, M_ret. intros [= -> -> <-]. auto. Qed.

Lemma emit_Ret e s u s1 t : emit e s = Ret u s1 t -> s1 = s /\ t = [e].
Proof. unfold emit. intros [= _ -> <-]. auto. Qed.

Lemma modify_Ret f s u s1 t : modify f s = Ret u s1 t -> s1 = f s /\ t = [].
Proof. unfold modify. intros [= _ -> <-]. auto. Qed.

Lemma gets_Ret {A} (f : state -> A) s a s1 t :
  gets f s = Ret a s1 t -> a = f s /\ s1 = s /\ t = [].
Proof. unfold gets. intros [= -> -> <-]. auto. Qed.

(** The part of the state the driver itself owns: the caller's buffer. *)
Lemma buf_write_TWCR v s : buf (write_TWCR v s) = buf s.
Proof.
  unfold write_TWCR.
  repeat match goal with |- context [if ?c then _ else _] => destruct c end;
    reflexivity.
Qed.

Lemma TWDR_write_TWCR v s : TWDR (write_TWCR v s) = TWDR s.
Proof.
  unfold write_TWCR.
  repeat match goal with |- context [if ?c then _ else _] => destruct c end;
    reflexivity.
Qed.

Lemma buf_read_TWCR s : buf (snd (read_TWCR s)) = buf s.
Proof.
  unfold read_TWCR. destruct (pending s) as [r|]; [|reflexivity].
  destruct (r_delay r) as [[|d]|]; reflexivity.
Qed.

Lemma i2c_wait_until_finish_Ret fuel : forall s u s1 t,
  i2c_wait_until_finish fuel s = Ret u s1 t -> t = [] /\ buf s1 = buf s.
Proof.
  induction fuel as [|f IH]; intros s u s1 t; simpl; [discriminate|].
  pose proof (buf_read_TWCR s) as Hb.
  destruct (read_TWCR s) as [v s0]; simpl in Hb.
  destruct (Z.land v (bit TWINT) =? 0).
  - intros H. apply IH in H as [-> H]. split; congruence.
  - intros [= _ <- <-]. auto.
Qed.

Lemma i2c_start_Ret fuel s u s1 t :
  i2c_start fuel s = Ret u s1 t -> t = [EvStart] /\ buf s1 = buf s.
Proof.
  unfold i2c_start. intros H.
  apply bind_Ret in H as (? & ? & ? & ? & H1 & H & ->).
  apply emit_Ret in H1 as [-> ->].
  apply bind_Ret in H as (? & ? & ? & ? & H1 & H & ->).
  apply modify_Ret in H1 as [-> ->].
  apply i2c_wait_until_finish_Ret in H as [-> H].
  rewrite buf_write_TWCR in H. auto.
Qed.

Lemma i2c_transmit_Ret fuel b s u s1 t :
  i2c_transmit fuel b s = Ret u s1 t -> t = [EvTransmit b] /\ buf s1 = buf s.
Proof.
  unfold i2c_transmit. intros H.
  apply bind_Ret in H as (? & ? & ? & ? & H1 & H & ->).
  apply emit_Ret in H1 as [-> ->].
  apply bind_Ret in H as (? & ? & ? & ? & H1 & H & ->).
  apply modify_Ret in H1 as [-> ->].
  apply bind_Ret in H as (? & ? & ? & ? & H1 & H & ->).
  apply modify_Ret in H1 as [-> ->].
  apply i2c_wait_until_finish_Ret in H as [-> H].
  rewrite buf_write_TWCR in H. auto.
Qed.

Lemma i2c_receive_ack_Ret fuel s d s1 t :
  i2c_receive_ack fuel s = Ret d s1 t ->
  t = [EvReceiveAck] /\ buf s1 = buf s /\ d = TWDR s1.
Proof.
  unfold i2c_receive_ack. intros H.
  apply bind_Ret in H as (? & ? & ? & ? & H1 & H & ->).
  apply emit_Ret in H1 as [-> ->].
  apply bind_Ret in H as (? & ? & ? & ? & H1 & H & ->).
  apply modify_Ret in H1 as [-> ->].
  apply bind_Ret in H as (? & ? & ? & ? & H1 & H & ->).
  apply i2c_wait_until_finish_Ret in H1 as [-> H1].
  apply gets_Ret in H as (-> & -> & ->).
  rewrite buf_write_TWCR in H1. auto.
Qed.

Lemma i2c_receive_nack_Ret fuel s d s1 t :
  i2c_receive_nack fuel s = Ret d s1 t ->
  t = [EvReceiveNack] /\ buf s1 = buf s /\ d = TWDR s1.
Proof.
  unfold i2c_receive_nack. intros H.
  apply bind_Ret in H as (? & ? & ? & ? & H1 & H & ->).
  apply emit_Ret in H1 as [-> ->].
  apply bind_Ret in H as (? & ? & ? & ? & H1 & H & ->).
  apply modify_Ret in H1 as [-> ->].
  apply bind_Ret in H as (? & ? & ? & ? & H1 & H & ->).
  apply i2c_wait_until_finish_Ret in H1 as [-> H1].
  apply gets_Ret in H as (-> & -> & ->).
  rewrite buf_write_TWCR in H1. auto.
Qed.

Lemma i2c_stop_Ret s u s1 t :
  i2c_stop s = Ret u s1 t ->
  t = [EvStop] /\ buf s1 = buf s /\ TWDR s1 = TWDR s.
Proof.
  unfold i2c_stop. intros H.
  apply bind_Ret in H as (? & ? & ? & ? & H1 & H & ->).
  apply emit_Ret in H1 as [-> ->].
  apply modify_Ret in H as [-> ->].
  rewrite buf_write_TWCR, TWDR_write_TWCR. auto.
Qed.

Lemma i2c_check_status_Ret c s r s1 t :
  i2c_check_status c s = Ret r s1 t ->
  s1 = s /\
  ((r = SUCCESS /\ t = [EvCheck c true] /\ Z.land (TWSR s) 0xF8 = c) \/
   (r = ERROR /\ t = [EvCheck c false] /\ Z.land (TWSR s) 0xF8 <> c)).
Proof.
  unfold i2c_check_status.
  destruct (Z.eqb_spec (Z.land (TWSR s) 0xF8) c); intros [= <- <- <-]; auto.
Qed.

Lemma load_Ret i s v s1 t :
  load i s = Ret v s1 t ->
  s1 = s /\ t = [EvLoad i] /\ buf s !! Z.to_nat i = Some v.
Proof.
  unfold load. destruct (buf s !! Z.to_nat i); [|discriminate].
  intros [= <- <- <-]. auto.
Qed.

Lemma store_Ret i v s u s1 t :
  store i v s = Ret u s1 t ->
  t = [EvStore i v] /\ buf s1 = <[Z.to_nat i := v]> (buf s) /\
  TWDR s1 = TWDR s /\ (Z.to_nat i < length (buf s))%nat.
Proof.
  unfold store. destruct (Nat.ltb_spec (Z.to_nat i) (length (buf s))); [|discriminate].
  intros [= <- <-]. auto.
Qed.

(** Backward symbolic execution of a returned run, one call at a time. *)
Ltac run_prim Hm :=
  lazymatch type of Hm with
  | i2c_start _ _ = _ => apply i2c_start_Ret in Hm as [-> Hm]
  | i2c_transmit _ _ _ = _ => apply i2c_transmit_Ret in Hm as [-> Hm]
  | i2c_receive_ack _ _ = _ =>
      let Hd := fresh "Hd" in apply i2c_receive_ack_Ret in Hm as (-> & Hm & Hd)
  | i2c_receive_nack _ _ = _ =>
      let Hd := fresh "Hd" in apply i2c_receive_nack_Ret in Hm as (-> & Hm & Hd)
  | i2c_stop _ = _ =>
      let Hd := fresh "Hd" in apply i2c_stop_Ret in Hm as (-> & Hm & Hd)
  | i2c_check_status _ _ = _ =>
      apply i2c_check_status_Ret in Hm as [-> [(-> & -> & Hm) | (-> & -> & Hm)]]
  | load _ _ = _ => apply load_Ret in Hm as (-> & -> & Hm)
  | store _ _ _ = _ =>
      let Hd := fresh "Hd" in
      let Hl := fresh "Hl" in
      apply store_Ret in Hm as (-> & Hm & Hd & Hl)
  | mret _ _ = _ => apply ret_Ret in Hm as (-> & -> & ->)
  | _ => idtac
  end.

Ltac run_step H :=
  lazymatch type of H with
  | mbind _ _ _ = Ret _ _ _ =>
      let Hm := fresh "Hm" in
      apply bind_Ret in H as (? & ? & ? & ? & Hm & H & ->);
      run_prim Hm; cbv beta in H;
      try change (SUCCESS =? ERROR) with false in H;
      try change (ERROR =? ERROR) with true in H;
      cbv iota in H
  | mret _ _ = Ret _ _ _ => apply ret_Ret in H as (-> & -> & ->)
  end.

Ltac run H := repeat run_step H.

(** ** Shapes of the traces of the data loops *)

Lemma transmit_loop_Ret fuel n : forall i s q s' tr,
  transmit_loop fuel n i s = Ret q s' tr ->
  buf s' = buf s /\
  exists bs,
    (q = None /\ length bs = n /\ tr = tx_phases i bs) \/
    (q = Some ERROR /\ (length bs < n)%nat /\
     exists b, tr = tx_phases i bs ++
        [EvLoad (i + Z.of_nat (length bs)); EvTransmit b;
         EvCheck MT_DATA_TRANSMITTED_ACK false; EvStop]).
Proof.
  induction n as [|n IH]; intros i s q s' tr H; simpl in H.
  - run H. split; [reflexivity|]. exists []. left. auto.
  - run H.
    + apply IH in H as (Hb & bs & Hc). split; [congruence|].
      destruct Hc as [(-> & <- & ->) | (-> & Hl & b & ->)].
      * eexists (_ :: bs). left. repeat split.
      * eexists (_ :: bs). right. split; [reflexivity|].
        split; [cbn [length]; lia|]. exists b.
        cbn [tx_phases app length].
        replace (i + Z.of_nat (S (length bs))) with (i + 1 + Z.of_nat (length bs))
          by lia.
        reflexivity.
    + split; [congruence|]. exists []. right.
      split; [reflexivity|]. split; [cbn [length]; lia|]. eexists.
      cbn [tx_phases app length]. rewrite Z.add_0_r. reflexivity.
Qed.

Ltac buf_len :=
  repeat match goal with
         | H : length (buf ?x) = _ |- context [length (buf ?x)] => rewrite H
         | H : buf ?x = _ |- context [buf ?x] => rewrite H
         end;
  rewrite ?length_insert; try reflexivity.

Lemma receive_loop_Ret fuel len n : forall i s q s' tr,
  n = Z.to_nat (len - i) ->
  receive_loop fuel len n i s = Ret q s' tr ->
  length (buf s') = length (buf s) /\
  exists ds,
    (q = None /\ n = 0%nat /\ ds = [] /\ tr = []) \/
    (q = None /\ S (length ds) = n /\
     exists d, tr = ack_phases i ds ++
        [EvReceiveNack; EvStore (len - 1) d; EvCheck MT_DATA_RECEIVED_NACK true]) \/
    (q = Some ERROR /\ (S (length ds) < n)%nat /\
     exists d, tr = ack_phases i ds ++
        [EvReceiveAck; EvStore (i + Z.of_nat (length ds)) d;
         EvCheck MT_DATA_RECEIVED_ACK false; EvStop]) \/
    (q = Some ERROR /\ S (length ds) = n /\
     exists d, tr = ack_phases i ds ++
        [EvReceiveNack; EvStore (len - 1) d;
         EvCheck MT_DATA_RECEIVED_NACK false; EvStop]).
Proof.
  induction n as [|n IH]; intros i s q s' tr Hn H; simpl in H.
  - run H. split; [reflexivity|]. exists []. left. auto.
  - destruct (Z.eqb_spec i (len - 1)) as [Hi|Hi].
    + run H.
      * destruct n as [|n]; [|lia]. simpl in H. run H.
        split; [buf_len|].
        exists []. right. left. split; [reflexivity|]. split; [reflexivity|].
        eexists. subst i. reflexivity.
      * split; [buf_len|].
        exists []. right. right. right. split; [reflexivity|].
        split; [cbn [length]; lia|]. eexists. subst i. reflexivity.
    + run H.
      * apply IH in H as (Hb & ds & Hc); [|lia].
        split; [buf_len|].
        destruct Hc as [(-> & -> & _ & ->) | [(-> & Hds & d & ->)
                       | [(-> & Hds & d & ->) | (-> & Hds & d & ->)]]].
        -- lia.
        -- eexists (_ :: ds). right. left. split; [reflexivity|].
           split; [cbn [length]; lia|]. exists d. reflexivity.
        -- eexists (_ :: ds). right. right. left. split; [reflexivity|].
           split; [cbn [length]; lia|]. exists d.
           cbn [ack_phases app length].
           replace (i + Z.of_nat (S (length ds))) with (i + 1 + Z.of_nat (length ds))
             by lia.
           reflexivity.
        -- eexists (_ :: ds). right. right. right. split; [reflexivity|].
           split; [cbn [length]; lia|]. exists d. reflexivity.
      * split; [buf_len|].
        exists []. right. right. left. split; [reflexivity|].
        split; [cbn [length]; lia|]. eexists.
        cbn [ack_phases app length]. rewrite Z.add_0_r. reflexivity.
Qed.

Ltac run_loop H :=
  match goal with
  | Hm : transmit_loop _ _ _ _ = Ret _ _ _ |- _ =>
      let Hb := fresh "Hb" in
      let Hn := fresh "Hn" in
      apply transmit_loop_Ret in Hm
        as (Hb & ?bs & [(-> & Hn & ->) | (-> & Hn & ?b & ->)])
  | Hm : receive_loop _ ?len _ 0 _ = Ret _ _ _ |- _ =>
      let Hb := fresh "Hb" in
      let Hn := fresh "Hn" in
      apply receive_loop_Ret in Hm
        as (Hb & ?ds & [(-> & Hn & -> & ->) | [(-> & Hn & ?d & ->)
                       | [(-> & Hn & ?d & ->) | (-> & Hn & ?d & ->)]]]);
      [ | | | | f_equal; lia]
  end;
  cbv iota in H; run H.

(** ** The abort policy *)








Ltac norm_trace := rewrite ?app_nil_r, <- ?app_assoc; cbn [app].




(** ** The status validator *)

Lemma mask_F8 x :
  Z.land x 0xF8 = Z.shiftl (Z.land (Z.shiftr x 3) 0x1F) 3.
Proof.
  apply Z.bits_inj'. intros n Hn.
  rewrite Z.land_spec.
  destruct (Z.lt_ge_cases n 3) as [Hlt|Hge].
  - rewrite Z.shiftl_spec_low by lia.
    assert (n = 0 \/ n = 1 \/ n = 2) as [-> | [-> | ->]] by lia;
      simpl; apply andb_false_r.
  - rewrite Z.shiftl_spec by lia. rewrite Z.land_spec, Z.shiftr_spec by lia.
    replace (n - 3 + 3) with n by lia. f_equal.
    destruct (Z.lt_ge_cases n 8) as [Hlt|Hge8].
    + assert (n = 3 \/ n = 4 \/ n = 5 \/ n = 6 \/ n = 7)
        as [-> | [-> | [-> | [-> | ->]]]] by lia; reflexivity.
    + change 0xF8 with (Z.ldiff (Z.ones 8) (Z.ones 3)).
      change 0x1F with (Z.ones 5).
      rewrite Z.ldiff_spec, !Z.ones_spec_high by lia. reflexivity.
Qed.

(** C2.  [i2c_check_status expected] reads TWSR and leaves the machine as it
    is; it returns SUCCESS when [TWSR & 0xF8] equals [expected] and ERROR
    otherwise.  The mask keeps the five status bits where they are (bits 7..3)
    and clears the bits below them, so two status registers that differ only
    in the prescaler bits get the same verdict, and what is compared is the
    unshifted value: the codes 0x08..0x58 of the header are their own masked
    values. *)
Theorem i2c_check_status_spec expected s :
  ((Z.land (TWSR s) 0xF8 = expected /\
    i2c_check_status expected s = Ret SUCCESS s [EvCheck expected true]) \/
   (Z.land (TWSR s) 0xF8 <> expected /\
    i2c_check_status expected s = Ret ERROR s [EvCheck expected false])) /\
  Z.land (TWSR s) 0xF8 = Z.shiftl (Z.land (Z.shiftr (TWSR s) 3) 0x1F) 3 /\
  (forall s2,
     Z.land (Z.shiftr (TWSR s2) 3) 0x1F = Z.land (Z.shiftr (TWSR s) 3) 0x1F ->
     verdict (i2c_check_status expected s2) = verdict (i2c_check_status expected s)) /\
  Forall (fun c => 0x08 <= c <= 0x58 /\ Z.land c 0xF8 = c) status_codes.
Proof.
  split; [|split; [apply mask_F8|split]].
  - unfold i2c_check_status.
    destruct (Z.eqb_spec (Z.land (TWSR s) 0xF8) expected); auto.
  - intros s2 Hs. unfold i2c_check_status.
    rewrite (mask_F8 (TWSR s2)), (mask_F8 (TWSR s)), Hs.
    destruct (_ =? expected); reflexivity.
  - repeat constructor; vm_compute; congruence.
Qed.

Lemma i2c_check_status_spec_witness :
  verdict (i2c_check_status MT_SLA_WRITE_ACK (idle [] [])) = Some ERROR /\
  verdict (i2c_check_status MT_SLA_WRITE_ACK (set_TWSR 3 (idle [] []))) = Some ERROR.
Proof.
  pose proof (i2c_check_status_spec MT_SLA_WRITE_ACK (idle [] []))
    as (_ & _ & H & _).
  split; [reflexivity|].
  rewrite (H (set_TWSR 3 (idle [] []))); reflexivity.
Defined.

(** ** The peripheral, forwards *)

Lemma flag_after_clear w : Z.land (Z.ldiff w (bit TWINT)) (bit TWINT) = 0.
Proof.
  apply Z.bits_inj'. intros n Hn.
  rewrite Z.land_spec, Z.ldiff_spec, Z.bits_0.
  destruct (Z.testbit (bit TWINT) n); simpl; rewrite ?andb_false_r; reflexivity.
Qed.

Lemma flag_after_raise w :
  (Z.land (Z.lor w (bit TWINT)) (bit TWINT) =? 0) = false.
Proof.
  apply Z.eqb_neq. intros H.
  apply (f_equal (fun x => Z.testbit x TWINT)) in H.
  rewrite Z.land_spec, Z.lor_spec, Z.bits_0 in H.
  change (Z.testbit (bit TWINT) TWINT) with true in H.
  rewrite orb_true_r in H. discriminate.
Qed.

Lemma write_TWCR_triggers v s :
  triggers v ->
  write_TWCR v s =
  State (TWBR s) (TWSR s) (Z.ldiff (u8 v) (bit TWINT)) (TWDR s)
        (Some (script s (cursor s))) (script s) (S (cursor s)) (buf s).
Proof. intros (H1 & H2 & H3). unfold write_TWCR. rewrite H1, H2, H3. reflexivity. Qed.

Lemma triggers_start : triggers (Z.lor (Z.lor (bit TWINT) (bit TWSTA)) (bit TWEN)).
Proof. repeat split. Qed.
Lemma triggers_data : triggers (Z.lor (bit TWINT) (bit TWEN)).
Proof. repeat split. Qed.
Lemma triggers_ack : triggers (Z.lor (Z.lor (bit TWINT) (bit TWEA)) (bit TWEN)).
Proof. repeat split. Qed.

Lemma i2c_wait_until_finish_completes d : forall fuel s r,
  pending s = Some r -> r_delay r = Some d -> (d < fuel)%nat ->
  Z.land (TWCR s) (bit TWINT) = 0 ->
  i2c_wait_until_finish fuel s = Ret tt (completed r s) [].
Proof.
  induction d as [|d IH]; intros fuel s r Hp Hd Hf Hc;
    (destruct fuel as [|fuel]; [lia|]); simpl; unfold read_TWCR; rewrite Hp, Hd.
  - rewrite flag_after_raise. reflexivity.
  - rewrite Hc. simpl.
    rewrite (IH fuel _ (Response (Some d) (r_status r) (r_data r)));
      [reflexivity|reflexivity|reflexivity|lia|exact Hc].
Qed.

Lemma i2c_wait_until_finish_blocks fuel : forall s r,
  pending s = Some r -> r_delay r = None ->
  Z.land (TWCR s) (bit TWINT) = 0 ->
  i2c_wait_until_finish fuel s = Timeout.
Proof.
  induction fuel as [|fuel IH]; intros s r Hp Hd Hc; simpl; [reflexivity|].
  unfold read_TWCR. rewrite Hp, Hd, Hc. simpl. eauto.
Qed.

Lemma i2c_wait_until_finish_short fuel : forall d s r,
  pending s = Some r -> r_delay r = Some d -> (fuel <= d)%nat ->
  Z.land (TWCR s) (bit TWINT) = 0 ->
  i2c_wait_until_finish fuel s = Timeout.
Proof.
  induction fuel as [|fuel IH]; intros d s r Hp Hd Hf Hc; simpl; [reflexivity|].
  unfold read_TWCR. rewrite Hp, Hd. destruct d as [|d]; [lia|].
  rewrite Hc. simpl. eapply (IH d); simpl; eauto. lia.
Qed.

Lemma trigger_returns v fuel s d :
  triggers v -> r_delay (script s (cursor s)) = Some d -> (d < fuel)%nat ->
  i2c_wait_until_finish fuel (write_TWCR v s) =
  Ret tt (completed (script s (cursor s)) (write_TWCR v s)) [].
Proof.
  intros Hv Hd Hf. apply (i2c_wait_until_finish_completes d).
  - rewrite (write_TWCR_triggers v s Hv). reflexivity.
  - exact Hd.
  - exact Hf.
  - rewrite (write_TWCR_triggers v s Hv). apply flag_after_clear.
Qed.

Lemma trigger_blocks v fuel s :
  triggers v -> r_delay (script s (cursor s)) = None ->
  i2c_wait_until_finish fuel (write_TWCR v s) = Timeout.
Proof.
  intros Hv Hd. apply (i2c_wait_until_finish_blocks fuel _ (script s (cursor s))).
  - rewrite (write_TWCR_triggers v s Hv). reflexivity.
  - exact Hd.
  - rewrite (write_TWCR_triggers v s Hv). apply flag_after_clear.
Qed.

Lemma i2c_start_blocks fuel s :
  r_delay (script s (cursor s)) = None -> i2c_start fuel s = Timeout.
Proof.
  intros H. unfold i2c_start, mbind, M_bind, emit, modify. simpl.
  rewrite (trigger_blocks _ fuel s triggers_start H). reflexivity.
Qed.

Lemma i2c_transmit_blocks fuel b s :
  r_delay (script s (cursor s)) = None -> i2c_transmit fuel b s = Timeout.
Proof.
  intros H. unfold i2c_transmit, mbind, M_bind, emit, modify. simpl.
  rewrite (trigger_blocks _ fuel (set_TWDR b s) triggers_data H). reflexivity.
Qed.

Lemma i2c_receive_ack_blocks fuel s :
  r_delay (script s (cursor s)) = None -> i2c_receive_ack fuel s = Timeout.
Proof.
  intros H. unfold i2c_receive_ack, mbind, M_bind, emit, modify. simpl.
  rewrite (trigger_blocks _ fuel s triggers_ack H). reflexivity.
Qed.

Lemma i2c_receive_nack_blocks fuel s :
  r_delay (script s (cursor s)) = None -> i2c_receive_nack fuel s = Timeout.
Proof.
  intros H. unfold i2c_receive_nack, mbind, M_bind, emit, modify. simpl.
  rewrite (trigger_blocks _ fuel s triggers_data H). reflexivity.
Qed.

(** ** Stop *)

(** C8.  [i2c_stop] is one store of the fixed value
    [(1 << TWINT) | (1 << TWSTO) | (1 << TWEN)] = 0x94 to TWCR; it takes no
    fuel, polls nothing and always returns.  A second stop stores the same
    value and leaves the machine exactly as the first one left it.  The other
    primitives await completion: on a bus that does not answer, each of them
    is still polling whatever the fuel. *)
Theorem i2c_stop_idempotent s :
  Z.lor (Z.lor (bit TWINT) (bit TWSTO)) (bit TWEN) = 0x94 /\
  i2c_stop s = Ret tt (write_TWCR 0x94 s) [EvStop] /\
  i2c_stop (write_TWCR 0x94 s) = Ret tt (write_TWCR 0x94 s) [EvStop] /\
  (r_delay (script s (cursor s)) = None ->
   forall fuel b,
     i2c_start fuel s = Timeout /\ i2c_transmit fuel b s = Timeout /\
     i2c_receive_ack fuel s = Timeout /\ i2c_receive_nack fuel s = Timeout).
Proof.
  repeat split; auto using i2c_start_blocks, i2c_transmit_blocks,
    i2c_receive_ack_blocks, i2c_receive_nack_blocks.
Qed.

Lemma i2c_stop_idempotent_witness :
  i2c_stop (idle [] []) = Ret tt (write_TWCR 0x94 (idle [] [])) [EvStop] /\
  i2c_start 1000 (idle [] []) = Timeout.
Proof.
  pose proof (i2c_stop_idempotent (idle [] [])) as (_ & H1 & _ & H2).
  split; [exact H1|]. apply (H2 eq_refl 1000%nat 0).
Defined.

Ltac unfold_ops H :=
  unfold i2c_is_device_connected, i2c_write_no_reg, i2c_write_with_reg,
    i2c_write_multi_no_reg, i2c_write_multi_with_reg, i2c_read_no_reg,
    i2c_read_with_reg, i2c_read_multi_no_reg, i2c_read_multi_with_reg in H.

(** ** Runs that fault *)

Lemma bind_Fault {A B} (m : M A) (k : A -> M B) s :
  (m ≫= k) s = Fault ->
  m s = Fault \/ exists a s1 t1, m s = Ret a s1 t1 /\ k a s1 = Fault.
Proof.
  unfold mbind, M_bind. destruct (m s) as [a s1 t1| |]; try discriminate; auto.
  destruct (k a s1) eqn:Hk; simpl; try discriminate. eauto 10.
Qed.

Lemma i2c_wait_until_finish_no_Fault fuel : forall s,
  i2c_wait_until_finish fuel s <> Fault.
Proof.
  induction fuel as [|f IH]; intros s; simpl; [discriminate|].
  destruct (read_TWCR s) as [v s0].
  destruct (Z.land v (bit TWINT) =? 0); [apply IH|discriminate].
Qed.

Lemma i2c_start_no_Fault fuel s : i2c_start fuel s <> Fault.
Proof.
  unfold i2c_start, mbind, M_bind, emit, modify. simpl.
  pose proof (i2c_wait_until_finish_no_Fault fuel
    (write_TWCR (Z.lor (Z.lor (bit TWINT) (bit TWSTA)) (bit TWEN)) s)) as H.
  destruct (i2c_wait_until_finish fuel _); simpl; congruence.
Qed.

Lemma i2c_transmit_no_Fault fuel b s : i2c_transmit fuel b s <> Fault.
Proof.
  unfold i2c_transmit, mbind, M_bind, emit, modify. simpl.
  pose proof (i2c_wait_until_finish_no_Fault fuel
    (write_TWCR (Z.lor (bit TWINT) (bit TWEN)) (set_TWDR b s))) as H.
  destruct (i2c_wait_until_finish fuel _); simpl; congruence.
Qed.

Lemma i2c_receive_ack_no_Fault fuel s : i2c_receive_ack fuel s <> Fault.
Proof.
  unfold i2c_receive_ack, mbind, M_bind, emit, modify, gets. simpl.
  pose proof (i2c_wait_until_finish_no_Fault fuel
    (write_TWCR (Z.lor (Z.lor (bit TWINT) (bit TWEA)) (bit TWEN)) s)) as H.
  destruct (i2c_wait_until_finish fuel _); simpl; congruence.
Qed.

Lemma i2c_receive_nack_no_Fault fuel s : i2c_receive_nack fuel s <> Fault.
Proof.
  unfold i2c_receive_nack, mbind, M_bind, emit, modify, gets. simpl.
  pose proof (i2c_wait_until_finish_no_Fault fuel
    (write_TWCR (Z.lor (bit TWINT) (bit TWEN)) s)) as H.
  destruct (i2c_wait_until_finish fuel _); simpl; congruence.
Qed.

Lemma i2c_stop_no_Fault s : i2c_stop s <> Fault.
Proof. discriminate. Qed.

Lemma i2c_check_status_no_Fault c s : i2c_check_status c s <> Fault.
Proof. unfold i2c_check_status. destruct (_ =? c); discriminate. Qed.


(** ** Transfers of length zero *)



(** ** Multi-byte reads *)

(** C3.  A multi-byte read of [len >= 1] bytes that returns SUCCESS has gone,
    after its address phases, through [len - 1] receptions with acknowledge,
    each stored at its index and followed by a passed check of 0x50, then
    through one reception without acknowledge for the last byte, stored at
    [len - 1] and followed by a passed check of 0x58, and then stop. *)
Theorem multi_read_ack_policy fuel op len s r s' tr :
  multi_read_len op = Some len ->
  1 <= len ->
  run_op fuel op s = Ret r s' tr ->
  r = SUCCESS ->
  exists ds d,
    Z.of_nat (length ds) = len - 1 /\
    tr = preamble op ++ ack_phases 0 ds ++
         [EvReceiveNack; EvStore (len - 1) d;
          EvCheck MT_DATA_RECEIVED_NACK true; EvStop] /\
    MT_DATA_RECEIVED_ACK = 0x50 /\ MT_DATA_RECEIVED_NACK = 0x58.
Proof.
  intros Hop Hlen H Hr.
  destruct op; try discriminate Hop; injection Hop as ->; simpl in H;
    unfold_ops H; run H; try discriminate Hr; run_loop H;
    try discriminate Hr; try lia.
  all: exists ds, d; split; [lia|]; split; [|split; reflexivity].
  all: norm_trace; reflexivity.
Qed.

Lemma multi_read_ack_policy_witness :
  exists ds d,
    Z.of_nat (length ds) = 3 - 1 /\
    [EvStart; EvCheck MT_START true; EvTransmit 0xD1; EvCheck MT_SLA_READ_ACK true;
     EvReceiveAck; EvStore 0 11; EvCheck MT_DATA_RECEIVED_ACK true;
     EvReceiveAck; EvStore 1 12; EvCheck MT_DATA_RECEIVED_ACK true;
     EvReceiveNack; EvStore 2 13; EvCheck MT_DATA_RECEIVED_NACK true; EvStop]
    = preamble (ReadMultiNoReg 0x68 3) ++ ack_phases 0 ds ++
      [EvReceiveNack; EvStore (3 - 1) d; EvCheck MT_DATA_RECEIVED_NACK true; EvStop] /\
    MT_DATA_RECEIVED_ACK = 0x50 /\ MT_DATA_RECEIVED_NACK = 0x58.
Proof.
  set (s0 := idle [answer 0x08 0; answer 0x40 0; answer 0x50 11;
                   answer 0x50 12; answer 0x58 13] [0; 0; 0]).
  set (s1 := State 0 0x58 0x14 13 None (script s0) 5 [11; 12; 13]).
  apply (multi_read_ack_policy 1 (ReadMultiNoReg 0x68 3) 3 s0 SUCCESS s1);
    [reflexivity|lia|vm_compute; reflexivity|reflexivity].
Defined.

(** ** Register-addressed reads *)

Lemma no_start_tx_phases bs : forall i, ~ In EvStart (tx_phases i bs).
Proof.
  induction bs as [|b bs IH]; intros i; simpl; [tauto|].
  specialize (IH (i + 1)). intuition discriminate.
Qed.

Lemma no_start_ack_phases ds : forall i, ~ In EvStart (ack_phases i ds).
Proof.
  induction ds as [|d ds IH]; intros i; simpl; [tauto|].
  specialize (IH (i + 1)). intuition discriminate.
Qed.

Lemma lookup_In {A} (l : list A) k x : l !! k = Some x -> In x l.
Proof. intros H. apply list_elem_of_In. eapply list_elem_of_lookup_2, H. Qed.

Ltac no_start :=
  let Hin := fresh "Hin" in
  intros Hin; rewrite ?in_app_iff in Hin; simpl in Hin;
  repeat (destruct Hin as [Hin|Hin]);
  first [ contradiction | discriminate Hin
        | eapply no_start_ack_phases, Hin | eapply no_start_tx_phases, Hin ].

(** ** The address byte *)

Lemma address_bytes_no_start tr : ~ In EvStart tr -> address_bytes tr = [].
Proof.
  induction tr as [|e tr IH]; [reflexivity|]. intros Hn.
  assert (address_bytes tr = []) as Htr by (apply IH; intros Hi; apply Hn; right; exact Hi).
  destruct e; try exact Htr. exfalso. apply Hn. left. reflexivity.
Qed.

Lemma lor_7bit a dir :
  0 <= a < 128 -> dir = I2C_WRITE \/ dir = I2C_READ ->
  Z.lor (Z.shiftl a 1) dir = 2 * a + dir.
Proof.
  intros Ha Hd.
  rewrite Z.shiftl_mul_pow2 by lia. change (2 ^ 1) with 2.
  rewrite (Z.mul_comm a 2).
  destruct Hd as [-> | ->]; unfold I2C_WRITE, I2C_READ.
  - rewrite Z.lor_0_r. lia.
  - symmetry. apply Z.add_nocarry_lor.
    apply Z.bits_inj'. intros n Hn. rewrite Z.land_spec, Z.bits_0.
    destruct (Z.eq_dec n 0) as [-> | Hne].
    + rewrite Z.testbit_even_0. reflexivity.
    + rewrite (Z.bits_above_log2 1 n) by (simpl; lia). apply andb_false_r.
Qed.

Lemma sla_7bit a dir :
  0 <= a < 128 -> dir = I2C_WRITE \/ dir = I2C_READ -> sla a dir = 2 * a + dir.
Proof.
  intros Ha Hd. unfold sla, u8. rewrite (lor_7bit a dir Ha Hd).
  apply Z.mod_small. destruct Hd as [-> | ->]; unfold I2C_WRITE, I2C_READ; lia.
Qed.

(** C6.  In every run of a transfer function on a 7-bit address, each address
    byte put on the bus is [2 * address + direction], the address shifted left
    by one with the direction in bit 0: the address bytes of the run are, in
    order, those of the directions of the operation (write for the probe, the
    writes and the register phase of a register-addressed read; read for the
    reads), all of them when the run succeeds. *)
Theorem address_always_shifted fuel op s r s' tr :
  0 <= op_address op < 128 ->
  run_op fuel op s = Ret r s' tr ->
  address_bytes tr `prefix_of`
    map (fun dir => 2 * op_address op + dir) (directions op) /\
  (r = SUCCESS ->
   address_bytes tr = map (fun dir => 2 * op_address op + dir) (directions op)) /\
  Forall (fun b => exists dir, (dir = I2C_WRITE \/ dir = I2C_READ) /\
                   b = Z.lor (Z.shiftl (op_address op) 1) dir /\ 0 <= b < 256)
         (address_bytes tr).
Proof.
  intros Ha H.
  assert (forall dir, dir = I2C_WRITE \/ dir = I2C_READ ->
            u8 (Z.lor (Z.shiftl (op_address op) 1) dir) = 2 * op_address op + dir)
    as Hsla by (intros dir Hd; apply (sla_7bit _ dir Ha Hd)).
  assert (forall dir, dir = I2C_WRITE \/ dir = I2C_READ ->
            2 * op_address op + dir = Z.lor (Z.shiftl (op_address op) 1) dir /\
            0 <= 2 * op_address op + dir < 256) as Hlor.
  { intros dir Hd. rewrite (lor_7bit _ dir Ha Hd).
    destruct Hd as [-> | ->]; unfold I2C_WRITE, I2C_READ; lia. }
  destruct op; simpl in Ha, Hsla, Hlor, H |- *; unfold_ops H; run H; try run_loop H;
    norm_trace; cbn [address_bytes];
    rewrite ?address_bytes_no_start by no_start;
    rewrite ?(Hsla I2C_WRITE), ?(Hsla I2C_READ) by auto.
  all: split; [|split].
  all: try (intros Hr; discriminate Hr).
  all: try (intros _; reflexivity).
  all: try (eexists; reflexivity).
  all: repeat constructor.
  all: try (eexists; split; [|apply Hlor]; auto).
Qed.

Lemma address_always_shifted_witness :
  address_bytes
    [EvStart; EvCheck MT_START true; EvTransmit 0xD0; EvCheck MT_SLA_WRITE_ACK true;
     EvTransmit 0x00; EvCheck MT_DATA_TRANSMITTED_ACK true;
     EvStart; EvCheck MT_REP_START true; EvTransmit 0xD1;
     EvCheck MT_SLA_READ_ACK true; EvReceiveNack; EvStore 0 0x2A;
     EvCheck MT_DATA_RECEIVED_NACK true; EvStop]
  = [2 * 0x68 + I2C_WRITE; 2 * 0x68 + I2C_READ].
Proof.
  set (s0 := idle [answer 0x08 0; answer 0x18 0; answer 0x28 0; answer 0x10 0;
                   answer 0x40 0; answer 0x58 0x2A] [0]).
  set (s1 := State 0 0x58 0x14 0x2A None (script s0) 6 [0x2A]).
  assert (0 <= op_address (ReadWithReg 0x68 0x00) < 128) as Ha by (simpl; lia).
  refine (proj1 (proj2 (address_always_shifted 1 (ReadWithReg 0x68 0x00)
                          s0 SUCCESS s1 _ Ha _)) eq_refl).
  vm_compute. reflexivity.
Defined.

(** ** Scenario C of the specification *)

(** C5.  [i2c_write_multi_no_reg(0x27, {0x01, 0x02, 0x03}, 3)] on a bus that
    answers start with 0x08, SLA+W with 0x18, the first data byte with 0x28
    and the second with 0x30 (NACK), whatever the registers held before and
    however much patience the wait loop has: the call returns ERROR; it has
    put SLA+W and exactly two data bytes, 0x01 and 0x02, on the bus, the third
    byte was never loaded, and its last action is the stop condition. *)
Theorem scenario_C fuel br sr cr dr pend :
  let bus := answers [answer 0x08 0; answer 0x18 0; answer 0x28 0; answer 0x30 0] in
  let tr := [EvStart; EvCheck MT_START true;
             EvTransmit 0x4E; EvCheck MT_SLA_WRITE_ACK true;
             EvLoad 0; EvTransmit 0x01; EvCheck MT_DATA_TRANSMITTED_ACK true;
             EvLoad 1; EvTransmit 0x02; EvCheck MT_DATA_TRANSMITTED_ACK false;
             EvStop] in
  i2c_write_multi_no_reg (S fuel) 0x27 3
    (State br sr cr dr pend bus 0 [0x01; 0x02; 0x03])
  = Ret ERROR (State br MT_DATA_TRANSMITTED_NACK 0x14 0 None bus 4 [0x01; 0x02; 0x03]) tr /\
  transmitted tr = [sla 0x27 I2C_WRITE; 0x01; 0x02] /\
  last tr = Some EvStop.
Proof.
  repeat split.
Qed.

(** ** Termination *)

Lemma i2c_wait_until_finish_step fuel s :
  i2c_wait_until_finish (S fuel) s =
  if flag_at 0 s then Ret tt (snd (read_TWCR s)) []
  else i2c_wait_until_finish fuel (snd (read_TWCR s)).
Proof.
  unfold flag_at, flag_set. simpl. destruct (read_TWCR s) as [v s1]. simpl.
  destruct (Z.land v (bit TWINT) =? 0); reflexivity.
Qed.

Lemma i2c_wait_until_finish_Ret_flag fuel : forall s u s' t,
  i2c_wait_until_finish fuel s = Ret u s' t ->
  exists n, (n < fuel)%nat /\ flag_at n s = true.
Proof.
  induction fuel as [|fuel IH]; intros s u s' t H; [discriminate|].
  rewrite i2c_wait_until_finish_step in H.
  destruct (flag_at 0 s) eqn:H0.
  - exists 0%nat. split; [lia|exact H0].
  - apply IH in H as (n & Hn & Hf). exists (S n). split; [lia|exact Hf].
Qed.

Lemma i2c_wait_until_finish_flag_Ret n : forall s,
  flag_at n s = true ->
  forall fuel, (n < fuel)%nat -> exists s', i2c_wait_until_finish fuel s = Ret tt s' [].
Proof.
  induction n as [|n IH]; intros s Hf fuel Hlt;
    (destruct fuel as [|fuel]; [lia|]); rewrite i2c_wait_until_finish_step.
  - rewrite Hf. eauto.
  - destruct (flag_at 0 s); [eauto|]. apply IH; [exact Hf|lia].
Qed.

Lemma i2c_wait_until_finish_Timeout fuel : forall s,
  (forall n, flag_at n s = false) -> i2c_wait_until_finish fuel s = Timeout.
Proof.
  induction fuel as [|fuel IH]; intros s Hf; [reflexivity|].
  rewrite i2c_wait_until_finish_step, (Hf 0%nat). apply IH.
  intros n. apply (Hf (S n)).
Qed.

Section Progress.
Variable fuel : nat.
Variable L : nat.

Lemma ready_weaken N N' s : (N' <= N)%nat -> ready fuel L N s -> ready fuel L N' s.
Proof. intros Hle [Hl Hr]. split; [exact Hl|]. intros k Hk. apply Hr. lia. Qed.

Lemma consumes_weaken {A} N N' (m : M A) :
  consumes fuel L N m -> (N <= N')%nat -> consumes fuel L N' m.
Proof.
  intros Hm Hle K s Hr.
  destruct (Hm (N' - N + K)%nat s) as (a & s' & tr & Hs & Hr').
  - eapply ready_weaken; [|exact Hr]. lia.
  - exists a, s', tr. split; [exact Hs|]. eapply ready_weaken; [|exact Hr']. lia.
Qed.

Lemma consumes_ret {A} (a : A) : consumes fuel L 0 (mret a).
Proof. intros K s Hr. exists a, s, []. auto. Qed.

Lemma consumes_bind {A B} N1 N2 (m : M A) (k : A -> M B) :
  consumes fuel L N1 m -> (forall a, consumes fuel L N2 (k a)) -> consumes fuel L (N1 + N2) (m ≫= k).
Proof.
  intros Hm Hk K s Hr.
  destruct (Hm (N2 + K)%nat s) as (a & s1 & t1 & Hs & Hr1).
  { eapply ready_weaken; [|exact Hr]. lia. }
  destruct (Hk a K s1 Hr1) as (b & s2 & t2 & Hs2 & Hr2).
  exists b, s2, (t1 ++ t2). split; [|exact Hr2].
  unfold mbind, M_bind. rewrite Hs, Hs2. reflexivity.
Qed.

Lemma consumes_if {A} N1 N2 (c : bool) (m1 m2 : M A) :
  consumes fuel L N1 m1 -> consumes fuel L N2 m2 ->
  consumes fuel L (Nat.max N1 N2) (if c then m1 else m2).
Proof.
  intros H1 H2. destruct c; [apply (consumes_weaken N1)|apply (consumes_weaken N2)];
    auto; lia.
Qed.

Lemma consumes_emit e : consumes fuel L 0 (emit e).
Proof. intros K s Hr. exists tt, s, [e]. auto. Qed.

Lemma consumes_set_TWDR b : consumes fuel L 0 (modify (set_TWDR b)).
Proof. intros K s Hr. exists tt, (set_TWDR b s), []. auto. Qed.

Lemma consumes_gets {A} (f : state -> A) : consumes fuel L 0 (gets f).
Proof. intros K s Hr. exists (f s), s, []. auto. Qed.

Lemma consumes_trigger v :
  triggers v -> consumes fuel L 1 (modify (write_TWCR v) ;; i2c_wait_until_finish fuel).
Proof.
  intros Hv K s [Hl Hr].
  destruct (Hr 0%nat) as (d & Hd & Hf); [lia|]. rewrite Nat.add_0_r in Hd.
  exists tt, (completed (script s (cursor s)) (write_TWCR v s)), [].
  split.
  - unfold mbind, M_bind, modify.
    rewrite (trigger_returns v fuel s d Hv Hd Hf). reflexivity.
  - rewrite (write_TWCR_triggers v s Hv). split; [exact Hl|].
    intros k Hk. simpl. destruct (Hr (S k)) as (d' & Hd' & Hf'); [lia|].
    exists d'. rewrite <- Nat.add_succ_r. auto.
Qed.

Lemma consumes_stop : consumes fuel L 0 i2c_stop.
Proof.
  intros K s [Hl Hr]. eexists tt, _, _. split; [reflexivity|].
  split; [exact Hl|exact Hr].
Qed.

Lemma consumes_check c : consumes fuel L 0 (i2c_check_status c).
Proof.
  intros K s Hr. unfold i2c_check_status.
  destruct (Z.land (TWSR s) 0xF8 =? c); eauto 10.
Qed.

Lemma consumes_load i : (Z.to_nat i < L)%nat -> consumes fuel L 0 (load i).
Proof.
  intros Hi K s [Hl Hr]. unfold load.
  destruct (lookup_lt_is_Some_2 (buf s) (Z.to_nat i)) as [v Hv]; [lia|].
  rewrite Hv. exists v, s, [EvLoad i]. repeat split; auto.
Qed.

Lemma consumes_store i v : (Z.to_nat i < L)%nat -> consumes fuel L 0 (store i v).
Proof.
  intros Hi K s [Hl Hr]. unfold store.
  destruct (Nat.ltb_spec (Z.to_nat i) (length (buf s))); [|lia].
  eexists tt, _, _. split; [reflexivity|]. split; [|exact Hr].
  simpl. rewrite length_insert. exact Hl.
Qed.
End Progress.

Lemma consumes_trigger_then {A} fuel L v N (k : M A) :
  triggers v -> consumes fuel L N k ->
  consumes fuel L (1 + N) (modify (write_TWCR v) ;; i2c_wait_until_finish fuel ;; k).
Proof.
  intros Hv Hk K s Hr.
  destruct (consumes_trigger fuel L v Hv (N + K)%nat s) as (u & s1 & t1 & Hs & Hr1).
  { eapply ready_weaken; [|exact Hr]. lia. }
  destruct (Hk K s1 Hr1) as (a & s2 & t2 & Hs2 & Hr2).
  exists a, s2, (t1 ++ t2). split; [|exact Hr2].
  apply bind_Ret in Hs as (? & ? & ? & ? & Hm & Hw & ->).
  apply modify_Ret in Hm as [-> ->].
  unfold mbind, M_bind, modify. rewrite Hw. simpl. rewrite Hs2. reflexivity.
Qed.

Lemma consumes_start fuel L : consumes fuel L 1 (i2c_start fuel).
Proof.
  apply (consumes_bind fuel L 0 1); [apply consumes_emit|intros _].
  apply consumes_trigger, triggers_start.
Qed.

Lemma consumes_transmit fuel L b : consumes fuel L 1 (i2c_transmit fuel b).
Proof.
  apply (consumes_bind fuel L 0 1); [apply consumes_emit|intros _].
  apply (consumes_bind fuel L 0 1); [apply consumes_set_TWDR|intros _].
  apply consumes_trigger, triggers_data.
Qed.

Lemma consumes_receive_ack fuel L : consumes fuel L 1 (i2c_receive_ack fuel).
Proof.
  apply (consumes_bind fuel L 0 1); [apply consumes_emit|intros _].
  apply (consumes_trigger_then fuel L _ 0); [apply triggers_ack|apply consumes_gets].
Qed.

Lemma consumes_receive_nack fuel L : consumes fuel L 1 (i2c_receive_nack fuel).
Proof.
  apply (consumes_bind fuel L 0 1); [apply consumes_emit|intros _].
  apply (consumes_trigger_then fuel L _ 0); [apply triggers_data|apply consumes_gets].
Qed.

(** Forward execution: every call of the sequence returns. *)
Ltac progress_step :=
  first
    [ apply consumes_ret
    | apply consumes_start
    | apply consumes_transmit
    | apply consumes_receive_ack
    | apply consumes_receive_nack
    | apply consumes_stop
    | apply consumes_check
    | apply consumes_load
    | apply consumes_store
    | eapply consumes_if
    | eapply consumes_bind; [|intros ?] ].

Lemma consumes_transmit_loop fuel L n : forall i,
  0 <= i -> (Z.to_nat i + n <= L)%nat ->
  consumes fuel L n (transmit_loop fuel n i).
Proof.
  induction n as [|n IH]; intros i Hi Hn; simpl.
  - apply consumes_ret.
  - eapply consumes_weaken.
    + eapply consumes_bind; [apply consumes_load; lia|intros b].
      eapply consumes_bind; [apply consumes_transmit|intros _].
      eapply consumes_bind; [apply consumes_check|intros r].
      eapply consumes_if; [repeat progress_step|].
      apply IH; lia.
    + simpl. lia.
Qed.

Lemma consumes_receive_loop fuel L len n : forall i,
  0 <= i -> (Z.to_nat i + n <= L)%nat ->
  consumes fuel L n (receive_loop fuel len n i).
Proof.
  induction n as [|n IH]; intros i Hi Hn; simpl.
  - apply consumes_ret.
  - eapply consumes_weaken.
    + eapply consumes_if.
      * eapply consumes_bind; [apply consumes_receive_nack|intros d].
        eapply consumes_bind; [apply consumes_store; lia|intros _].
        eapply consumes_bind; [apply consumes_check|intros r].
        eapply consumes_if; [repeat progress_step|].
        apply IH; lia.
      * eapply consumes_bind; [apply consumes_receive_ack|intros d].
        eapply consumes_bind; [apply consumes_store; lia|intros _].
        eapply consumes_bind; [apply consumes_check|intros r].
        eapply consumes_if; [repeat progress_step|].
        apply IH; lia.
    + simpl. lia.
Qed.

Lemma consumes_match {A B} fuel L N1 N2 (q : option A) (f : A -> M B) (m : M B) :
  (forall a, consumes fuel L N1 (f a)) -> consumes fuel L N2 m ->
  consumes fuel L (Nat.max N1 N2) (match q with Some a => f a | None => m end).
Proof.
  intros H1 H2.
  destruct q; [apply (consumes_weaken _ _ N1)|apply (consumes_weaken _ _ N2)];
    auto; lia.
Qed.

Lemma consumes_run_op fuel L op :
  (buffer_need op <= L)%nat ->
  consumes fuel L (max_triggers op) (run_op fuel op).
Proof.
  intros Hb.
  destruct op; simpl in Hb |- *;
    unfold i2c_is_device_connected, i2c_write_no_reg, i2c_write_with_reg,
      i2c_write_multi_no_reg, i2c_write_multi_with_reg, i2c_read_no_reg,
      i2c_read_with_reg, i2c_read_multi_no_reg, i2c_read_multi_with_reg.
  all: eapply consumes_weaken;
    [ repeat first
        [ apply consumes_transmit_loop; [lia|simpl; lia]
        | apply consumes_receive_loop; [lia|simpl; lia]
        | apply consumes_store; simpl; lia
        | eapply consumes_match; [intros ?|]
        | progress_step ]
    | simpl; lia ].
Qed.

Lemma bounded_delays s N :
  hardware_answers s ->
  exists D, forall k, (k < N)%nat ->
    exists d, r_delay (script s (cursor s + k)) = Some d /\ (d < D)%nat.
Proof.
  intros Hs. induction N as [|N (D & HD)].
  - exists 0%nat. intros k Hk. lia.
  - destruct (r_delay (script s (cursor s + N))) as [d|] eqn:Hd;
      [|exfalso; apply (Hs _ Hd)].
    exists (Nat.max D (S d)). intros k Hk.
    destruct (Nat.eq_dec k N) as [-> | Hne].
    + exists d. split; [exact Hd|lia].
    + destruct (HD k) as (d' & Hd' & Hlt); [lia|]. exists d'. split; [exact Hd'|lia].
Qed.

Lemma run_op_blocks fuel op s :
  r_delay (script s (cursor s)) = None -> run_op fuel op s = Timeout.
Proof.
  intros H. destruct op; simpl;
    unfold i2c_is_device_connected, i2c_write_no_reg, i2c_write_with_reg,
      i2c_write_multi_no_reg, i2c_write_multi_with_reg, i2c_read_no_reg,
      i2c_read_with_reg, i2c_read_multi_no_reg, i2c_read_multi_with_reg;
    unfold mbind at 1, M_bind at 1; rewrite (i2c_start_blocks fuel s H); reflexivity.
Qed.

(** C7.  [i2c_wait_until_finish] returns exactly when some poll of TWCR reads
    TWINT set; there is no bound on the number of polls and no other exit, so
    when no poll ever reads the flag the loop is still running whatever the
    fuel.  Hence a transfer function returns when the peripheral raises the
    flag after every operation it is asked for (given a buffer as large as
    the call needs), and it never returns when the flag is not raised after
    its first start condition.  [i2c_init] does not wait and always
    returns. *)
Theorem wait_terminates_iff_flag_raised :
  (forall s,
     ((exists fuel s', i2c_wait_until_finish fuel s = Ret tt s' []) <->
      (exists n, flag_at n s = true)) /\
     ((forall n, flag_at n s = false) ->
      forall fuel, i2c_wait_until_finish fuel s = Timeout)) /\
  (forall op s,
     hardware_answers s -> (buffer_need op <= length (buf s))%nat ->
     exists fuel0, forall fuel, (fuel0 <= fuel)%nat ->
       exists r s' tr, run_op fuel op s = Ret r s' tr) /\
  (forall op s,
     r_delay (script s (cursor s)) = None ->
     forall fuel, run_op fuel op s = Timeout) /\
  (forall s, exists s', i2c_init s = Ret tt s' []).
Proof.
  split; [|split; [|split]].
  - intros s. split; [split|].
    + intros (fuel & s' & H).
      apply i2c_wait_until_finish_Ret_flag in H as (n & _ & Hn). eauto.
    + intros (n & Hn). exists (S n).
      apply (i2c_wait_until_finish_flag_Ret n s Hn). lia.
    + intros Hn fuel. apply i2c_wait_until_finish_Timeout, Hn.
  - intros op s Hs Hb.
    destruct (bounded_delays s (max_triggers op) Hs) as (D & HD).
    exists D. intros fuel Hf.
    destruct (consumes_run_op fuel (length (buf s)) op Hb 0%nat s)
      as (r & s' & tr & Hrun & _).
    + split; [reflexivity|]. rewrite Nat.add_0_r. intros k Hk.
      destruct (HD k Hk) as (d & Hd & Hlt). exists d. split; [exact Hd|lia].
    + eauto.
  - intros op s H fuel. apply run_op_blocks, H.
  - intros s. unfold i2c_init, mbind, M_bind, modify, load_TWCR.
    destruct (read_TWCR (set_TWSR 0 (set_TWBR 18 s))) as [v s1]. simpl. eauto.
Qed.

Lemma wait_terminates_iff_flag_raised_witness :
  (exists fuel0, forall fuel, (fuel0 <= fuel)%nat ->
     exists r s' tr,
       run_op fuel (ReadNoReg 0x68)
         (State 0 0xF8 0 0 None (fun _ => Response (Some 5%nat) 0x08 0) 0 [0])
       = Ret r s' tr) /\
  (forall fuel, run_op fuel (ReadNoReg 0x68) (idle [] [0]) = Timeout).
Proof.
  destruct wait_terminates_iff_flag_raised as (_ & Hb & Hc & _).
  split.
  - apply Hb; [intros k; discriminate|simpl; lia].
  - apply Hc. reflexivity.
Defined.

(** * Further properties of the driver *)

(** ** The address argument beyond seven bits *)

Lemma lor_even a dir :
  dir = I2C_WRITE \/ dir = I2C_READ -> Z.lor (2 * a) dir = 2 * a + dir.
Proof.
  intros [-> | ->]; unfold I2C_WRITE, I2C_READ.
  - rewrite Z.lor_0_r. lia.
  - symmetry. apply Z.add_nocarry_lor.
    apply Z.bits_inj'. intros n Hn. rewrite Z.land_spec, Z.bits_0.
    destruct (Z.eq_dec n 0) as [-> | Hne].
    + rewrite Z.testbit_even_0. reflexivity.
    + rewrite (Z.bits_above_log2 1 n) by (simpl; lia). apply andb_false_r.
Qed.

Lemma sla_mod_128 a dir :
  dir = I2C_WRITE \/ dir = I2C_READ -> sla (a + 128) dir = sla a dir.
Proof.
  intros Hd. unfold sla, u8.
  rewrite !Z.shiftl_mul_pow2 by lia. change (2 ^ 1) with 2.
  rewrite (Z.mul_comm (a + 128) 2), (Z.mul_comm a 2), !lor_even by exact Hd.
  replace (2 * (a + 128) + dir) with (2 * a + dir + 1 * 256) by lia.
  apply Z.mod_add. lia.
Qed.

(** X1.  Bit 7 of the [address] argument never reaches the bus: the shift
    [(address << 1)] is converted to [uint8_t] when it is passed to
    [i2c_transmit], so a call on [address + 128] is, in every respect (result,
    final state, trace, also when it blocks or faults), the call on
    [address]. *)
Theorem address_bit7_dropped fuel op a s :
  run_op fuel (set_address (a + 128) op) s = run_op fuel (set_address a op) s.
Proof.
  pose proof (sla_mod_128 a I2C_WRITE (or_introl eq_refl)) as Hw.
  pose proof (sla_mod_128 a I2C_READ (or_intror eq_refl)) as Hr.
  unfold sla in Hw, Hr.
  destruct op; simpl;
    unfold i2c_is_device_connected, i2c_write_no_reg, i2c_write_with_reg,
      i2c_write_multi_no_reg, i2c_write_multi_with_reg, i2c_read_no_reg,
      i2c_read_with_reg, i2c_read_multi_no_reg, i2c_read_multi_with_reg;
    rewrite ?Hw, ?Hr; reflexivity.
Qed.

(** ** What the buffer sees *)

Lemma inbound_tx_phases bs : forall i, existsb is_inbound (tx_phases i bs) = false.
Proof. induction bs as [|b bs IH]; intros i; simpl; auto. Qed.

Lemma load_ack_phases ds : forall i, existsb is_load (ack_phases i ds) = false.
Proof. induction ds as [|d ds IH]; intros i; simpl; auto. Qed.

Ltac no_event :=
  norm_trace; cbn [existsb is_inbound is_load orb];
  rewrite ?existsb_app, ?inbound_tx_phases, ?load_ack_phases; reflexivity.

(** X2.  The probe and the four writes only read the caller's memory: a run
    that returns leaves the buffer as it was, stores nothing and receives
    nothing.  The four reads never read the buffer; they only store into it,
    and keep its length. *)
Theorem buffer_frame fuel op s r s' tr :
  run_op fuel op s = Ret r s' tr ->
  if is_write op
  then buf s' = buf s /\ existsb is_inbound tr = false
  else length (buf s') = length (buf s) /\ existsb is_load tr = false.
Proof.
  intros H. destruct op; simpl in H |- *; unfold_ops H; run H; try run_loop H.
  all: split; [first [congruence | buf_len] | no_event].
Qed.

Lemma buffer_frame_witness :
  let s0 := idle [answer 0x08 0; answer 0x18 0; answer 0x28 0; answer 0x28 0] [7; 9] in
  let s1 := State 0 0x28 0x14 0 None (script s0) 4 [7; 9] in
  let tr := [EvStart; EvCheck MT_START true; EvTransmit 0x4E;
             EvCheck MT_SLA_WRITE_ACK true;
             EvLoad 0; EvTransmit 7; EvCheck MT_DATA_TRANSMITTED_ACK true;
             EvLoad 1; EvTransmit 9; EvCheck MT_DATA_TRANSMITTED_ACK true;
             EvStop] in
  run_op 1 (WriteMultiNoReg 0x27 2) s0 = Ret SUCCESS s1 tr /\
  buf s1 = buf s0 /\ existsb is_inbound tr = false.
Proof.
  intros s0 s1 tr.
  assert (run_op 1 (WriteMultiNoReg 0x27 2) s0 = Ret SUCCESS s1 tr) as Hrun
    by (vm_compute; reflexivity).
  split; [exact Hrun|].
  exact (buffer_frame 1 (WriteMultiNoReg 0x27 2) s0 SUCCESS s1 tr Hrun).
Defined.

(** ** What is put on the bus *)

Lemma transmitted_app t1 t2 :
  transmitted (t1 ++ t2) = transmitted t1 ++ transmitted t2.
Proof. apply omap_app. Qed.

Lemma transmitted_cons e tr :
  transmitted (e :: tr) =
  match e with EvTransmit b => b :: transmitted tr | _ => transmitted tr end.
Proof. destruct e; reflexivity. Qed.

Lemma transmitted_nil : transmitted [] = [].
Proof. reflexivity. Qed.

Lemma transmitted_ack_phases ds : forall i, transmitted (ack_phases i ds) = [].
Proof. induction ds as [|d ds IH]; intros i; [reflexivity|]. apply (IH (i + 1)). Qed.

Lemma transmit_loop_payload fuel n : forall i s q s' tr,
  0 <= i ->
  transmit_loop fuel n i s = Ret q s' tr ->
  transmitted tr `prefix_of` take n (drop (Z.to_nat i) (buf s)) /\
  (q = None -> transmitted tr = take n (drop (Z.to_nat i) (buf s))).
Proof.
  induction n as [|n IH]; intros i s q s' tr Hi H; simpl in H.
  - run H. split; [apply prefix_nil|reflexivity].
  - run H.
    + apply IH in H as [Hp He]; [|lia].
      rewrite (drop_S _ _ _ Hm).
      replace (Z.to_nat (i + 1)) with (S (Z.to_nat i)) in Hp, He by lia.
      rewrite Hm0 in Hp, He. split.
      * apply (prefix_cons _ _ _ Hp).
      * intros Hq. cbn. f_equal. apply He, Hq.
    + rewrite (drop_S _ _ _ Hm). split; [|discriminate].
      eexists. reflexivity.
Qed.

Ltac payload_loop :=
  match goal with
  | Hm : transmit_loop _ _ _ _ = Ret _ _ _ |- _ =>
      let Hp := fresh "Hp" in
      pose proof (transmit_loop_payload _ _ _ _ _ _ _ (Z.le_refl 0) Hm) as Hp;
      change (Z.to_nat 0) with 0%nat in Hp; rewrite drop_0 in Hp
  | _ => idtac
  end.

(** X3.  The bytes a transfer function puts on the bus are, in order, the
    address byte, the register byte where there is one, and for the writes
    the data: the argument of the single-byte writes, the first [len] bytes
    of the buffer for the multi-byte writes.  A run that returns has
    transmitted an initial part of that sequence, and all of it when it
    returns SUCCESS. *)
Theorem bus_payload fuel op s r s' tr :
  run_op fuel op s = Ret r s' tr ->
  transmitted tr `prefix_of` payload op (buf s) /\
  (r = SUCCESS -> transmitted tr = payload op (buf s)).
Proof.
  intros H. destruct op; simpl in H |- *; unfold_ops H; run H;
    payload_loop; try run_loop H.
  all: norm_trace; unfold sla.
  all: repeat first
         [ rewrite transmitted_cons; cbv beta iota | rewrite transmitted_app
         | rewrite transmitted_ack_phases | rewrite transmitted_nil
         | rewrite app_nil_r ].
  all: try match goal with
           | Hp : _ /\ _ |- _ =>
               repeat first
                 [ rewrite transmitted_cons in Hp; cbv beta iota in Hp
                 | rewrite transmitted_app in Hp | rewrite transmitted_nil in Hp
                 | rewrite app_nil_r in Hp ];
               repeat match goal with
                      | Hb : buf ?x = buf _ |- _ => rewrite Hb in Hp
                      end;
               destruct Hp as [Hp He]
           end.
  all: split; [|intros Hr; try discriminate Hr].
  all: try reflexivity.
  all: try (eexists; reflexivity).
  all: repeat first [apply prefix_cons | f_equal];
    first [exact Hp | apply He; reflexivity].
Qed.

Lemma bus_payload_witness :
  let s0 := idle [answer 0x08 0; answer 0x18 0; answer 0x28 0; answer 0x28 0] [7; 9] in
  let s1 := State 0 0x28 0x14 0 None (script s0) 4 [7; 9] in
  let tr := [EvStart; EvCheck MT_START true; EvTransmit 0x4E;
             EvCheck MT_SLA_WRITE_ACK true;
             EvLoad 0; EvTransmit 7; EvCheck MT_DATA_TRANSMITTED_ACK true;
             EvLoad 1; EvTransmit 9; EvCheck MT_DATA_TRANSMITTED_ACK true;
             EvStop] in
  run_op 1 (WriteMultiNoReg 0x27 2) s0 = Ret SUCCESS s1 tr /\
  transmitted tr = [0x4E; 7; 9].
Proof.
  intros s0 s1 tr.
  assert (run_op 1 (WriteMultiNoReg 0x27 2) s0 = Ret SUCCESS s1 tr) as Hrun
    by (vm_compute; reflexivity).
  split; [exact Hrun|].
  exact (proj2 (bus_payload 1 (WriteMultiNoReg 0x27 2) s0 SUCCESS s1 tr Hrun) eq_refl).
Defined.

(** ** The discipline of a transaction *)

Lemma disciplined_tx_phases bs : forall i rest,
  disciplined false (tx_phases i bs ++ rest) = disciplined false rest.
Proof. induction bs as [|b bs IH]; intros i rest; [reflexivity|]. apply IH. Qed.

Lemma disciplined_ack_phases ds : forall i rest,
  disciplined false (ack_phases i ds ++ rest) = disciplined false rest.
Proof. induction ds as [|d ds IH]; intros i rest; [reflexivity|]. apply IH. Qed.

Lemma run_op_disciplined fuel op s r s' tr :
  run_op fuel op s = Ret r s' tr -> disciplined false tr = true.
Proof.
  intros H. destruct op; simpl in H; unfold_ops H; run H; try run_loop H.
  all: norm_trace; cbn [disciplined negb andb];
    rewrite ?disciplined_tx_phases, ?disciplined_ack_phases; reflexivity.
Qed.





(** ** Accounting for the answers of the bus *)

Lemma i2c_wait_until_finish_Ret_completed fuel s u s1 t r :
  pending s = Some r -> Z.land (TWCR s) (bit TWINT) = 0 ->
  i2c_wait_until_finish fuel s = Ret u s1 t ->
  s1 = completed r s.
Proof.
  intros Hp Hc H. destruct (r_delay r) as [d|] eqn:Hd.
  - destruct (Nat.lt_ge_cases d fuel) as [Hlt|Hge].
    + rewrite (i2c_wait_until_finish_completes d fuel s r Hp Hd Hlt Hc) in H.
      injection H as _ <- _. reflexivity.
    + rewrite (i2c_wait_until_finish_short fuel d s r Hp Hd Hge Hc) in H.
      discriminate.
  - rewrite (i2c_wait_until_finish_blocks fuel s r Hp Hd Hc) in H. discriminate.
Qed.

Lemma trigger_Ret v fuel s u s1 t :
  triggers v ->
  i2c_wait_until_finish fuel (write_TWCR v s) = Ret u s1 t ->
  t = [] /\
  s1 = State (TWBR s) (u8 (r_status (script s (cursor s))))
             (Z.lor (Z.ldiff (u8 v) (bit TWINT)) (bit TWINT))
             (u8 (r_data (script s (cursor s)))) None
             (script s) (S (cursor s)) (buf s).
Proof.
  intros Hv H. split; [apply (i2c_wait_until_finish_Ret _ _ _ _ _ H)|].
  rewrite (write_TWCR_triggers v s Hv) in H.
  apply (i2c_wait_until_finish_Ret_completed _ _ _ _ _ (script s (cursor s))) in H;
    [exact H|reflexivity|apply flag_after_clear].
Qed.

Lemma tracks_ret {A} (a : A) : tracks (mret a).
Proof.
  intros s b s' tr H. apply ret_Ret in H as (-> & -> & ->). repeat split.
Qed.

Lemma judged_app sc t1 : forall w t2,
  judged sc w (t1 ++ t2) <-> judged sc w t1 /\ judged sc (replay sc w t1) t2.
Proof.
  induction t1 as [|e t1 IH]; intros w t2; simpl; [tauto|].
  rewrite IH. tauto.
Qed.

Lemma replay_app sc t1 t2 w :
  replay sc w (t1 ++ t2) = replay sc (replay sc w t1) t2.
Proof. apply fold_left_app. Qed.

Lemma tracks_bind {A B} (m : M A) (k : A -> M B) :
  tracks m -> (forall a, tracks (k a)) -> tracks (m ≫= k).
Proof.
  intros Hm Hk s b s2 tr H.
  apply bind_Ret in H as (a & s1 & t1 & t2 & H1 & H2 & ->).
  apply Hm in H1 as (Hs1 & Hj1 & Hv1).
  apply Hk in H2 as (Hs2 & Hj2 & Hv2).
  rewrite Hs1 in Hs2, Hj2, Hv2. rewrite Hv1 in Hj2, Hv2.
  split; [exact Hs2|]. split.
  - apply judged_app. auto.
  - rewrite replay_app. exact Hv2.
Qed.

Lemma tracks_if {A} (c : bool) (m1 m2 : M A) :
  tracks m1 -> tracks m2 -> tracks (if c then m1 else m2).
Proof. destruct c; auto. Qed.

Lemma tracks_match {A B} (q : option A) (f : A -> M B) (m : M B) :
  (forall a, tracks (f a)) -> tracks m ->
  tracks (match q with Some a => f a | None => m end).
Proof. destruct q; auto. Qed.

Lemma tracks_start fuel : tracks (i2c_start fuel).
Proof.
  intros s u s' tr H. unfold i2c_start in H.
  apply bind_Ret in H as (? & ? & ? & ? & H1 & H & ->).
  apply emit_Ret in H1 as [-> ->].
  apply bind_Ret in H as (? & ? & ? & ? & H1 & H & ->).
  apply modify_Ret in H1 as [-> ->].
  apply (trigger_Ret _ _ _ _ _ _ triggers_start) in H as [-> ->].
  repeat split.
Qed.

Lemma tracks_transmit fuel b : tracks (i2c_transmit fuel b).
Proof.
  intros s u s' tr H. unfold i2c_transmit in H.
  apply bind_Ret in H as (? & ? & ? & ? & H1 & H & ->).
  apply emit_Ret in H1 as [-> ->].
  apply bind_Ret in H as (? & ? & ? & ? & H1 & H & ->).
  apply modify_Ret in H1 as [-> ->].
  apply bind_Ret in H as (? & ? & ? & ? & H1 & H & ->).
  apply modify_Ret in H1 as [-> ->].
  apply (trigger_Ret _ _ _ _ _ _ triggers_data) in H as [-> ->].
  repeat split.
Qed.

Lemma tracks_stop : tracks i2c_stop.
Proof.
  intros s u s' tr H. injection H as _ <- <-. repeat split.
Qed.

Lemma tracks_check c : tracks (i2c_check_status c).
Proof.
  intros s r s' tr H.
  apply i2c_check_status_Ret in H as [-> [(-> & -> & H) | (-> & -> & H)]];
    repeat split; simpl; symmetry.
  - apply Z.eqb_eq, H.
  - apply Z.eqb_neq, H.
Qed.

Lemma tracks_load i : tracks (load i).
Proof.
  intros s v s' tr H. apply load_Ret in H as (-> & -> & H).
  repeat split. simpl. apply (lookup_lt_Some _ _ _ H).
Qed.

(** A receive and the store of its result, as the reads write them. *)
Lemma tracks_receive_ack_store {A} fuel i (k : M A) :
  tracks k -> tracks (d ← i2c_receive_ack fuel ; store i d ;; k).
Proof.
  intros Hk s a s' tr H.
  apply bind_Ret in H as (d & s1 & t1 & t2 & H1 & H & ->).
  unfold i2c_receive_ack in H1.
  apply bind_Ret in H1 as (? & ? & ? & ? & H0 & H1 & ->).
  apply emit_Ret in H0 as [-> ->].
  apply bind_Ret in H1 as (? & ? & ? & ? & H0 & H1 & ->).
  apply modify_Ret in H0 as [-> ->].
  apply bind_Ret in H1 as (? & ? & ? & ? & H0 & H1 & ->).
  apply (trigger_Ret _ _ _ _ _ _ triggers_ack) in H0 as [-> ->].
  apply gets_Ret in H1 as (-> & -> & ->).
  apply bind_Ret in H as (? & s2 & ? & t3 & H0 & H & ->).
  unfold store in H0. simpl in H0.
  destruct (Nat.ltb_spec (Z.to_nat i) (length (buf s))); [|discriminate].
  injection H0 as _ <- <-.
  apply Hk in H as (Hs & Hj & Hv). simpl in Hs, Hj, Hv |- *.
  repeat split; auto.
Qed.

Lemma tracks_receive_nack_store {A} fuel i (k : M A) :
  tracks k -> tracks (d ← i2c_receive_nack fuel ; store i d ;; k).
Proof.
  intros Hk s a s' tr H.
  apply bind_Ret in H as (d & s1 & t1 & t2 & H1 & H & ->).
  unfold i2c_receive_nack in H1.
  apply bind_Ret in H1 as (? & ? & ? & ? & H0 & H1 & ->).
  apply emit_Ret in H0 as [-> ->].
  apply bind_Ret in H1 as (? & ? & ? & ? & H0 & H1 & ->).
  apply modify_Ret in H0 as [-> ->].
  apply bind_Ret in H1 as (? & ? & ? & ? & H0 & H1 & ->).
  apply (trigger_Ret _ _ _ _ _ _ triggers_data) in H0 as [-> ->].
  apply gets_Ret in H1 as (-> & -> & ->).
  apply bind_Ret in H as (? & s2 & ? & t3 & H0 & H & ->).
  unfold store in H0. simpl in H0.
  destruct (Nat.ltb_spec (Z.to_nat i) (length (buf s))); [|discriminate].
  injection H0 as _ <- <-.
  apply Hk in H as (Hs & Hj & Hv). simpl in Hs, Hj, Hv |- *.
  repeat split; auto.
Qed.

Ltac tracks_step :=
  first
    [ apply tracks_ret
    | apply tracks_start
    | apply tracks_transmit
    | apply tracks_stop
    | apply tracks_check
    | apply tracks_load
    | apply tracks_receive_ack_store
    | apply tracks_receive_nack_store
    | apply tracks_if
    | apply tracks_match; [intros ?|]
    | apply tracks_bind; [|intros ?] ].

Lemma tracks_transmit_loop fuel n : forall i, tracks (transmit_loop fuel n i).
Proof.
  induction n as [|n IH]; intros i; simpl; [apply tracks_ret|].
  apply tracks_bind; [apply tracks_load|intros b].
  apply tracks_bind; [apply tracks_transmit|intros _].
  apply tracks_bind; [apply tracks_check|intros r].
  apply tracks_if; [repeat tracks_step|apply IH].
Qed.

Lemma tracks_receive_loop fuel len n : forall i, tracks (receive_loop fuel len n i).
Proof.
  induction n as [|n IH]; intros i; simpl; [apply tracks_ret|].
  apply tracks_if.
  - apply tracks_receive_nack_store.
    apply tracks_bind; [apply tracks_check|intros r].
    apply tracks_if; [repeat tracks_step|apply IH].
  - apply tracks_receive_ack_store.
    apply tracks_bind; [apply tracks_check|intros r].
    apply tracks_if; [repeat tracks_step|apply IH].
Qed.

Lemma tracks_run_op fuel op : tracks (run_op fuel op).
Proof.
  destruct op; simpl;
    unfold i2c_is_device_connected, i2c_write_no_reg, i2c_write_with_reg,
      i2c_write_multi_no_reg, i2c_write_multi_with_reg, i2c_read_no_reg,
      i2c_read_with_reg, i2c_read_multi_no_reg, i2c_read_multi_with_reg.
  all: repeat first
         [ apply tracks_transmit_loop | apply tracks_receive_loop | tracks_step ].
Qed.

Lemma replay_cursor sc tr : forall w,
  v_cursor (replay sc w tr) = (v_cursor w + bus_ops tr)%nat.
Proof.
  induction tr as [|e tr IH]; intros w; simpl; [lia|].
  rewrite IH. destruct e; simpl; lia.
Qed.

Lemma replay_pending sc tr : forall w,
  v_pending w = None -> v_pending (replay sc w tr) = None.
Proof.
  induction tr as [|e tr IH]; intros w Hw; [exact Hw|].
  simpl. apply IH. destruct e; simpl; auto.
Qed.

Lemma replay_registers sc tr : forall w,
  match bus_ops tr with
  | O => v_status (replay sc w tr) = v_status w /\
         v_data (replay sc w tr) = v_data w
  | S k => v_status (replay sc w tr) = u8 (r_status (sc (v_cursor w + k)%nat)) /\
           v_data (replay sc w tr) = u8 (r_data (sc (v_cursor w + k)%nat)) /\
           v_pending (replay sc w tr) = None
  end.
Proof.
  induction tr as [|e tr IH]; intros w; [simpl; auto|].
  simpl. specialize (IH (advance sc w e)).
  destruct e; simpl in IH |- *; destruct (bus_ops tr) as [|k];
    rewrite ?Nat.add_0_r, ?Nat.add_succ_r in *; simpl in IH; try exact IH.
  all: destruct IH as (Hs & Hd); repeat split; auto using replay_pending.
Qed.

Lemma run_op_starts fuel op s r s' tr :
  run_op fuel op s = Ret r s' tr -> exists tr', tr = EvStart :: tr'.
Proof.
  intros H. destruct op; simpl in H; unfold_ops H.
  all: apply bind_Ret in H as (? & ? & ? & ? & Hm & _ & ->).
  all: apply i2c_start_Ret in Hm as [-> _]; eauto.
Qed.

(** X5.  A transfer function consumes one answer of the bus for each start,
    transmit and receive it issues and none otherwise, and when it returns no
    operation is in flight.  Each of its status checks compares the masked
    status of the answer to the bus operation issued last, and each byte it
    stores through [data] is the data register of that answer: no status is
    judged twice, skipped or taken from an older operation. *)
Theorem bus_accounting fuel op s r s' tr :
  run_op fuel op s = Ret r s' tr ->
  script s' = script s /\
  cursor s' = (cursor s + bus_ops tr)%nat /\
  pending s' = None /\
  (forall pre c ok post, tr = pre ++ EvCheck c ok :: post ->
     exists k, bus_ops pre = S k /\
       ok = (Z.land (u8 (r_status (script s (cursor s + k)%nat))) 0xF8 =? c)) /\
  (forall pre i v post, tr = pre ++ EvStore i v :: post ->
     exists k, bus_ops pre = S k /\
       v = u8 (r_data (script s (cursor s + k)%nat))).
Proof.
  intros H.
  destruct (run_op_starts _ _ _ _ _ _ H) as (tr' & Htr).
  destruct (tracks_run_op fuel op s r s' tr H) as (Hs & Hj & Hv).
  assert (forall pre e post, tr = pre ++ e :: post -> is_bus_op e = false ->
            exists k, bus_ops pre = S k) as Hpre.
  { intros pre e post Hsplit He. destruct pre as [|e0 pre].
    - rewrite Htr in Hsplit. injection Hsplit as <- _. discriminate He.
    - rewrite Htr in Hsplit. injection Hsplit as <- _. simpl. eauto. }
  split; [exact Hs|]. split; [|split; [|split]].
  - change (cursor s') with (v_cursor (view_of s')). rewrite Hv, replay_cursor.
    reflexivity.
  - change (pending s') with (v_pending (view_of s')). rewrite Hv.
    pose proof (replay_registers (script s) tr (view_of s)) as Hr.
    rewrite Htr in Hr |- *. simpl in Hr. apply Hr.
  - intros pre c ok post Hsplit.
    destruct (Hpre _ _ _ Hsplit eq_refl) as (k & Hk). exists k. split; [exact Hk|].
    rewrite Hsplit in Hj. apply judged_app in Hj as [_ [Hh _]].
    pose proof (replay_registers (script s) pre (view_of s)) as Hr.
    rewrite Hk in Hr. destruct Hr as (Hst & _). simpl in Hh, Hst.
    rewrite Hst in Hh. exact Hh.
  - intros pre i v post Hsplit.
    destruct (Hpre _ _ _ Hsplit eq_refl) as (k & Hk). exists k. split; [exact Hk|].
    rewrite Hsplit in Hj. apply judged_app in Hj as [_ [[Hh _] _]].
    pose proof (replay_registers (script s) pre (view_of s)) as Hr.
    rewrite Hk in Hr. destruct Hr as (_ & Hd & _). simpl in Hh, Hd.
    rewrite Hd in Hh. exact Hh.
Qed.

Lemma bus_accounting_witness :
  let s0 := idle [answer 0x08 0; answer 0x40 0; answer 0x50 7; answer 0x58 9]
                 [0; 0; 5] in
  let s1 := State 0 0x58 0x14 9 None (script s0) 4 [7; 9; 5] in
  let tr := [EvStart; EvCheck MT_START true; EvTransmit 0xD1;
             EvCheck MT_SLA_READ_ACK true;
             EvReceiveAck; EvStore 0 7; EvCheck MT_DATA_RECEIVED_ACK true;
             EvReceiveNack; EvStore 1 9; EvCheck MT_DATA_RECEIVED_NACK true;
             EvStop] in
  run_op 1 (ReadMultiNoReg 0x68 2) s0 = Ret SUCCESS s1 tr /\
  cursor s1 = (cursor s0 + bus_ops tr)%nat /\
  exists k,
    bus_ops [EvStart; EvCheck MT_START true; EvTransmit 0xD1;
             EvCheck MT_SLA_READ_ACK true; EvReceiveAck] = S k /\
    7 = u8 (r_data (script s0 (cursor s0 + k)%nat)).
Proof.
  intros s0 s1 tr.
  assert (run_op 1 (ReadMultiNoReg 0x68 2) s0 = Ret SUCCESS s1 tr) as Hrun
    by (vm_compute; reflexivity).
  split; [exact Hrun|].
  destruct (bus_accounting 1 (ReadMultiNoReg 0x68 2) s0 SUCCESS s1 tr Hrun)
    as (_ & Hc & _ & _ & Hst).
  split; [exact Hc|].
  exact (Hst [EvStart; EvCheck MT_START true; EvTransmit 0xD1;
              EvCheck MT_SLA_READ_ACK true; EvReceiveAck] 0 7
             [EvCheck MT_DATA_RECEIVED_ACK true;
              EvReceiveNack; EvStore 1 9; EvCheck MT_DATA_RECEIVED_NACK true;
              EvStop] eq_refl).
Defined.

(** ** The verdict and the answers of the bus *)

Lemma check_log_cons e tr :
  check_log (e :: tr) =
  match e with EvCheck c ok => (c, ok) :: check_log tr | _ => check_log tr end.
Proof. destruct e; reflexivity. Qed.

Lemma check_log_nil : check_log [] = [].
Proof. reflexivity. Qed.

Lemma check_log_app t1 t2 : check_log (t1 ++ t2) = check_log t1 ++ check_log t2.
Proof. apply omap_app. Qed.

Lemma check_log_tx_phases bs : forall i,
  check_log (tx_phases i bs) = replicate (length bs) (MT_DATA_TRANSMITTED_ACK, true).
Proof.
  induction bs as [|b bs IH]; intros i; [reflexivity|].
  cbn [tx_phases length replicate]. rewrite !check_log_cons, IH. reflexivity.
Qed.

Lemma check_log_ack_phases ds : forall i,
  check_log (ack_phases i ds) = replicate (length ds) (MT_DATA_RECEIVED_ACK, true).
Proof.
  induction ds as [|d ds IH]; intros i; [reflexivity|].
  cbn [ack_phases length replicate]. rewrite !check_log_cons, IH. reflexivity.
Qed.

(** In a disciplined trace the k-th check judges the k-th answer. *)
Lemma judged_checks sc tr : forall w u base,
  disciplined u tr = true ->
  judged sc w tr ->
  v_cursor w = (base + if u then 1 else 0)%nat ->
  (u = true -> v_status w = u8 (r_status (sc base))) ->
  forall k c ok, check_log tr !! k = Some (c, ok) ->
    ok = (Z.land (u8 (r_status (sc (base + k)%nat))) 0xF8 =? c).
Proof.
  induction tr as [|e tr IH]; intros w u base Hd Hj Hc Hs k c ok Hk;
    [discriminate Hk|].
  destruct Hj as [Hh Hj]. rewrite check_log_cons in Hk.
  destruct e; simpl in Hd; apply andb_prop in Hd as [Hu Hd].
  all: try (destruct u; try discriminate Hu; simpl in Hc).
  - refine (IH _ true base Hd Hj _ _ k c ok Hk);
      [simpl; lia|intros _; simpl; rewrite Hc, Nat.add_0_r; reflexivity].
  - destruct tr; [discriminate Hk|discriminate Hd].
  - refine (IH _ true base Hd Hj _ _ k c ok Hk);
      [simpl; lia|intros _; simpl; rewrite Hc, Nat.add_0_r; reflexivity].
  - refine (IH _ true base Hd Hj _ _ k c ok Hk);
      [simpl; lia|intros _; simpl; rewrite Hc, Nat.add_0_r; reflexivity].
  - refine (IH _ true base Hd Hj _ _ k c ok Hk);
      [simpl; lia|intros _; simpl; rewrite Hc, Nat.add_0_r; reflexivity].
  - destruct k as [|k].
    + injection Hk as <- <-. simpl in Hh. rewrite Hs in Hh by reflexivity.
      rewrite Nat.add_0_r. exact Hh.
    + simpl in Hk. replace (base + S k)%nat with (S base + k)%nat by lia.
      refine (IH _ false (S base) Hd Hj _ _ k c ok Hk);
        [simpl; lia|discriminate].
  - refine (IH _ false base Hd Hj _ _ k c ok Hk); [simpl; lia|discriminate].
  - refine (IH _ true base Hd Hj _ _ k c ok Hk);
      [simpl; lia|intros _; apply Hs; reflexivity].
Qed.

Lemma prefix_replicate {A} (x : A) m n :
  (m <= n)%nat -> replicate m x `prefix_of` replicate n x.
Proof.
  intros Hle. exists (replicate (n - m) x). rewrite <- replicate_add.
  f_equal. lia.
Qed.

Lemma replicate_snoc {A} (x : A) n : replicate n x ++ [x] = replicate (S n) x.
Proof. induction n as [|n IH]; simpl; [reflexivity|]. rewrite IH. reflexivity. Qed.

Ltac log_norm :=
  repeat first
    [ rewrite check_log_cons; cbv beta iota | rewrite check_log_app
    | rewrite check_log_tx_phases | rewrite check_log_ack_phases
    | rewrite check_log_nil | rewrite app_nil_r ].

Lemma ends_false_one (c : Z) : exists pre c', [(c, false)] = pre ++ [(c', false)].
Proof. exists [], c. reflexivity. Qed.

Lemma ends_false_app (l : list (Z * bool)) (c : Z) :
  exists pre c', l ++ [(c, false)] = pre ++ [(c', false)].
Proof. exists l, c. reflexivity. Qed.

Lemma ends_false_cons (x : Z * bool) l :
  (exists pre c, l = pre ++ [(c, false)]) ->
  exists pre c, x :: l = pre ++ [(c, false)].
Proof. intros (pre & c & ->). exists (x :: pre), c. reflexivity. Qed.

Ltac use_length :=
  repeat match goal with
         | Hn : length _ = Z.to_nat _ |- _ => rewrite <- Hn
         | Hn : S (length _) = Z.to_nat _ |- _ => rewrite <- Hn
         | Hn : Z.to_nat _ = 0%nat |- _ => rewrite Hn
         end.

(** The checks of a run against the codes of the complete transaction. *)
Lemma run_op_check_log fuel op s r s' tr :
  run_op fuel op s = Ret r s' tr ->
  (check_log tr).*1 `prefix_of` expected_codes op /\
  ((r = SUCCESS /\ check_log tr = (fun c => (c, true)) <$> expected_codes op) \/
   (r = ERROR /\ exists pre c, check_log tr = pre ++ [(c, false)])).
Proof.
  intros H. destruct op; simpl in H; unfold_ops H; run H; try run_loop H.
  all: norm_trace; log_norm; cbn [expected_codes app].
  all: split;
    [| first [ left; split; [reflexivity|]
             | right; split; [reflexivity|] ] ].
  (* the failed check is the last one *)
  all: try (repeat first [ apply ends_false_one | apply ends_false_app
                         | apply ends_false_cons ]; fail).
  (* a successful run has checked every code *)
  all: try (use_length; cbn [receive_codes app];
            rewrite ?fmap_cons, ?fmap_app, ?fmap_replicate; reflexivity).
  (* what was checked is an initial part of the codes *)
  all: rewrite ?fmap_cons, ?fmap_app, ?fmap_replicate, ?fmap_nil; cbn [fst fmap list_fmap].
  all: repeat apply prefix_cons.
  all: try apply prefix_nil.
  all: rewrite replicate_snoc.
  all: try (apply prefix_replicate; lia).
  all: destruct (Z.to_nat len) as [|m]; [lia|]; cbn [receive_codes];
    apply prefix_app_r, prefix_replicate; lia.
Qed.

(** X6.  The result of a transfer function is decided by the status bytes of
    the answers of the bus, and by nothing else: a run that returns has
    returned SUCCESS exactly when, for every phase of the complete
    transaction, the answer to that phase carried the status code the
    function expects for it (masked to bits 7..3); otherwise it has returned
    ERROR. *)
Theorem verdict_decided_by_bus fuel op s r s' tr :
  run_op fuel op s = Ret r s' tr ->
  (r = SUCCESS \/ r = ERROR) /\
  (r = SUCCESS <->
   forall k c, expected_codes op !! k = Some c ->
     Z.land (u8 (r_status (script s (cursor s + k)%nat))) 0xF8 = c).
Proof.
  intros H.
  destruct (run_op_starts _ _ _ _ _ _ H) as (tr' & Htr).
  destruct (tracks_run_op fuel op s r s' tr H) as (_ & Hj & _).
  pose proof (run_op_disciplined _ _ _ _ _ _ H) as Hd.
  destruct (run_op_check_log _ _ _ _ _ _ H) as (Hp & Hl).
  assert (forall k c ok, check_log tr !! k = Some (c, ok) ->
            ok = (Z.land (u8 (r_status (script s (cursor s + k)%nat))) 0xF8 =? c))
    as Hjudge.
  { rewrite Htr in Hd, Hj |- *. simpl in Hd. destruct Hj as [_ Hj].
    intros k c ok Hk. rewrite check_log_cons in Hk.
    refine (judged_checks (script s) tr' _ true (cursor s) Hd Hj _ _ k c ok Hk);
      [simpl; lia|reflexivity]. }
  destruct Hl as [(-> & Hlog) | (-> & pre & c & Hlog)].
  - split; [left; reflexivity|]. split; [|reflexivity]. intros _ k c Hk.
    assert (check_log tr !! k = Some (c, true)) as Hc
      by (rewrite Hlog, list_lookup_fmap, Hk; reflexivity).
    apply Hjudge in Hc. symmetry in Hc. apply Z.eqb_eq in Hc. exact Hc.
  - split; [right; reflexivity|]. split; [discriminate|]. intros Hall. exfalso.
    assert (check_log tr !! length pre = Some (c, false)) as Hc.
    { rewrite Hlog, lookup_app_r, Nat.sub_diag by lia. reflexivity. }
    assert (expected_codes op !! length pre = Some c) as He.
    { apply (prefix_lookup_Some (check_log tr).*1); [|exact Hp].
      rewrite list_lookup_fmap, Hc. reflexivity. }
    apply Hjudge in Hc. rewrite (Hall _ _ He), Z.eqb_refl in Hc. discriminate.
Qed.

Lemma verdict_decided_by_bus_witness :
  let s0 := idle [answer 0x08 0; answer 0x40 0; answer 0x50 7; answer 0x58 9]
                 [0; 0; 5] in
  let s1 := State 0 0x58 0x14 9 None (script s0) 4 [7; 9; 5] in
  let tr := [EvStart; EvCheck MT_START true; EvTransmit 0xD1;
             EvCheck MT_SLA_READ_ACK true;
             EvReceiveAck; EvStore 0 7; EvCheck MT_DATA_RECEIVED_ACK true;
             EvReceiveNack; EvStore 1 9; EvCheck MT_DATA_RECEIVED_NACK true;
             EvStop] in
  run_op 1 (ReadMultiNoReg 0x68 2) s0 = Ret SUCCESS s1 tr /\
  forall k c, expected_codes (ReadMultiNoReg 0x68 2) !! k = Some c ->
    Z.land (u8 (r_status (script s0 (cursor s0 + k)%nat))) 0xF8 = c.
Proof.
  intros s0 s1 tr.
  assert (run_op 1 (ReadMultiNoReg 0x68 2) s0 = Ret SUCCESS s1 tr) as Hrun
    by (vm_compute; reflexivity).
  split; [exact Hrun|].
  exact (proj1 (proj2 (verdict_decided_by_bus 1 (ReadMultiNoReg 0x68 2) s0
                          SUCCESS s1 tr Hrun)) eq_refl).
Defined.

(** ** Where the received bytes go *)

Lemma replay_cons sc w e tr :
  replay sc w (e :: tr) = replay sc (advance sc w e) tr.
Proof. reflexivity. Qed.

Lemma replay_ack_phases sc ds : forall i w,
  0 <= i ->
  judged sc w (ack_phases i ds) ->
  v_cursor (replay sc w (ack_phases i ds)) = (v_cursor w + length ds)%nat /\
  length (v_buf (replay sc w (ack_phases i ds))) = length (v_buf w) /\
  (forall j, (Z.to_nat i <= j < Z.to_nat i + length ds)%nat ->
     v_buf (replay sc w (ack_phases i ds)) !! j =
     Some (u8 (r_data (sc (v_cursor w + (j - Z.to_nat i))%nat)))) /\
  (forall j, (j < Z.to_nat i \/ Z.to_nat i + length ds <= j)%nat ->
     v_buf (replay sc w (ack_phases i ds)) !! j = v_buf w !! j).
Proof.
  induction ds as [|d ds IH]; intros i w Hi Hj.
  - simpl. split; [lia|]. split; [reflexivity|].
    split; intros j Hjj; [lia|reflexivity].
  - cbn [ack_phases] in Hj |- *. destruct Hj as (_ & (Hd & Hlt) & _ & Hj).
    simpl in Hd, Hlt, Hj. rewrite !replay_cons.
    cbn [advance v_cursor v_status v_data v_buf v_pending]. subst d.
    destruct (IH (i + 1) _ ltac:(lia) Hj) as (Hc & Hl & Hin & Hout).
    simpl in Hc, Hl, Hin, Hout.
    replace (Z.to_nat (i + 1)) with (S (Z.to_nat i)) in Hin, Hout by lia.
    rewrite length_insert in Hl.
    split; [rewrite Hc; simpl; lia|]. split; [exact Hl|]. split.
    + intros j Hjj. destruct (Nat.eq_dec j (Z.to_nat i)) as [-> | Hne].
      * rewrite Hout by lia. rewrite list_lookup_insert_eq by exact Hlt.
        rewrite Nat.sub_diag, Nat.add_0_r. reflexivity.
      * rewrite Hin by (simpl in Hjj; lia). do 4 f_equal. simpl in Hjj. lia.
    + intros j Hjj. rewrite Hout by (simpl in Hjj; lia).
      apply list_lookup_insert_ne. simpl in Hjj. lia.
Qed.

Lemma replay_data_phase sc ds R d c ok tail w :
  R = EvReceiveAck \/ R = EvReceiveNack ->
  tail = [] \/ tail = [EvStop] ->
  judged sc w (ack_phases 0 ds ++
               R :: EvStore (Z.of_nat (length ds)) d :: EvCheck c ok :: tail) ->
  (forall j, (j <= length ds)%nat ->
     v_buf (replay sc w (ack_phases 0 ds ++
              R :: EvStore (Z.of_nat (length ds)) d :: EvCheck c ok :: tail)) !! j
     = Some (u8 (r_data (sc (v_cursor w + j)%nat)))) /\
  (forall j, (length ds < j)%nat ->
     v_buf (replay sc w (ack_phases 0 ds ++
              R :: EvStore (Z.of_nat (length ds)) d :: EvCheck c ok :: tail)) !! j
     = v_buf w !! j).
Proof.
  intros HR Htail Hj. apply judged_app in Hj as [Hj1 Hj2].
  destruct (replay_ack_phases sc ds 0 w (Z.le_refl 0) Hj1) as (Hc & Hl & Hin & Hout).
  change (Z.to_nat 0) with 0%nat in Hin, Hout.
  rewrite replay_app, !replay_cons.
  set (w2 := replay sc w (ack_phases 0 ds)) in *.
  destruct Hj2 as (_ & (Hd & Hlt) & _).
  simpl in Hd, Hlt. rewrite Nat2Z.id in Hlt.
  assert (v_data (advance sc w2 R) = u8 (r_data (sc (v_cursor w + length ds)%nat)) /\
          v_buf (advance sc w2 R) = v_buf w2) as [Hdata Hbuf].
  { rewrite <- Hc. destruct HR as [-> | ->]; split; reflexivity. }
  rewrite Hdata in Hd. rewrite Hbuf in Hlt. subst d.
  assert (forall x, v_buf (replay sc x tail) = v_buf x) as Htl
    by (intros x; destruct Htail as [-> | ->]; reflexivity).
  rewrite Htl. cbn [advance v_buf]. rewrite Nat2Z.id, Hbuf.
  split; intros j Hjj.
  - destruct (Nat.eq_dec j (length ds)) as [-> | Hne].
    + apply list_lookup_insert_eq, Hlt.
    + rewrite list_lookup_insert_ne by lia. rewrite Hin by lia.
      rewrite Nat.sub_0_r. reflexivity.
  - rewrite list_lookup_insert_ne by lia. apply Hout. lia.
Qed.

Lemma stores_app t1 t2 : stores (t1 ++ t2) = (stores t1 + stores t2)%nat.
Proof.
  induction t1 as [|e t1 IH]; [reflexivity|]. destruct e; simpl; rewrite IH; reflexivity.
Qed.

Lemma stores_ack_phases ds : forall i, stores (ack_phases i ds) = length ds.
Proof. induction ds as [|d ds IH]; intros i; simpl; [|rewrite IH]; reflexivity. Qed.

(** X7.  Where the received bytes go.  When a read function returns, the
    bytes it stored lie in the first cells of the buffer, in the order they
    were received, and each is the data register of the answer to its
    receive operation (the answers after the address phases); the cells
    behind them are as before the call.  It never stores more bytes than it
    was asked for, and a call that returns SUCCESS has stored all of them. *)
Theorem read_delivers_data fuel op s r s' tr :
  is_write op = false ->
  run_op fuel op s = Ret r s' tr ->
  (forall j, (j < stores tr)%nat ->
     buf s' !! j =
     Some (u8 (r_data (script s (cursor s + first_data_answer op + j)%nat)))) /\
  (forall j, (stores tr <= j)%nat -> buf s' !! j = buf s !! j) /\
  (stores tr <= read_count op)%nat /\
  (r = SUCCESS -> stores tr = read_count op).
Proof.
  intros Hop H.
  destruct (tracks_run_op fuel op s r s' tr H) as (_ & Hj & Hv).
  apply (f_equal v_buf) in Hv. change (v_buf (view_of s')) with (buf s') in Hv.
  destruct op; try discriminate Hop; clear Hop; simpl in H;
    unfold_ops H; run H; try run_loop H.
  all: rewrite ?app_nil_r, <- ?app_assoc in Hj, Hv; cbn [app] in Hj, Hv.
  all: norm_trace; cbn [first_data_answer read_count].
  all: cbn [stores]; rewrite ?stores_app, ?stores_ack_phases; cbn [stores].
  (* runs that stored nothing *)
  all: try (split; [intros j Hjj; lia|]; split; [intros j _; rewrite Hv; reflexivity|];
            split; [lia|]; intros Hr; first [discriminate Hr | lia]).
  (* runs with a data phase *)
  all: repeat match type of Hj with
              | judged _ _ (?e :: _) =>
                  lazymatch e with
                  | EvReceiveAck => fail
                  | EvReceiveNack => fail
                  | _ => destruct Hj as [_ Hj]; rewrite replay_cons in Hv
                  end
              end.
  all: try replace (len - 1) with (Z.of_nat (length ds)) in Hj, Hv by lia.
  all: rewrite ?Z.add_0_l in Hj, Hv.
  all: try match type of Hj with
           | judged ?sc ?W (?R :: ?t) =>
               change (judged sc W (ack_phases 0 [] ++ R :: t)) in Hj;
               change (R :: t) with (ack_phases 0 [] ++ R :: t) in Hv
           end.
  all: match type of Hj with
       | judged ?sc ?W (ack_phases 0 ?ds ++ ?R :: EvStore _ ?d :: EvCheck ?c ?ok :: ?tail) =>
           destruct (replay_data_phase sc ds R d c ok tail W) as [Hin Hout];
             [auto|auto|exact Hj|]
       end.
  all: rewrite Hv.
  all: split; [intros j Hjj; rewrite Hin by (cbn [length] in *; lia);
               do 4 f_equal; simpl; lia|].
  all: split; [intros j Hjj; rewrite Hout by (cbn [length] in *; lia); reflexivity|].
  all: split; [cbn [length] in *; lia|].
  all: intros Hr; first [discriminate Hr | cbn [length] in *; lia].
Qed.

Lemma read_delivers_data_witness :
  let s0 := idle [answer 0x08 0; answer 0x40 0; answer 0x50 7; answer 0x58 9]
                 [0; 0; 5] in
  let s1 := State 0 0x58 0x14 9 None (script s0) 4 [7; 9; 5] in
  let tr := [EvStart; EvCheck MT_START true; EvTransmit 0xD1;
             EvCheck MT_SLA_READ_ACK true;
             EvReceiveAck; EvStore 0 7; EvCheck MT_DATA_RECEIVED_ACK true;
             EvReceiveNack; EvStore 1 9; EvCheck MT_DATA_RECEIVED_NACK true;
             EvStop] in
  run_op 1 (ReadMultiNoReg 0x68 2) s0 = Ret SUCCESS s1 tr /\
  stores tr = read_count (ReadMultiNoReg 0x68 2) /\
  forall j, (j < stores tr)%nat ->
    buf s1 !! j =
    Some (u8 (r_data (script s0
       (cursor s0 + first_data_answer (ReadMultiNoReg 0x68 2) + j)%nat))).
Proof.
  intros s0 s1 tr.
  assert (run_op 1 (ReadMultiNoReg 0x68 2) s0 = Ret SUCCESS s1 tr) as Hrun
    by (vm_compute; reflexivity).
  split; [exact Hrun|].
  destruct (read_delivers_data 1 (ReadMultiNoReg 0x68 2) s0 SUCCESS s1 tr
              eq_refl Hrun) as (Hd & _ & _ & Hn).
  split; [exact (Hn eq_refl)|exact Hd].
Defined.

(** ** Initialisation *)

Lemma testbit_u8 x n :
  0 <= n -> Z.testbit (u8 x) n = (n <? 8) && Z.testbit x n.
Proof.
  intros Hn. unfold u8. change 256 with (2 ^ 8).
  destruct (Z.ltb_spec n 8).
  - rewrite Z.mod_pow2_bits_low by lia. reflexivity.
  - rewrite Z.mod_pow2_bits_high by lia. reflexivity.
Qed.

Lemma flag_clear_enable c :
  Z.land c (bit TWINT) = 0 -> Z.land (u8 (Z.lor c (bit TWEN))) (bit TWINT) = 0.
Proof.
  intros Hc. apply Z.bits_inj'. intros n Hn.
  apply (f_equal (fun x => Z.testbit x n)) in Hc.
  rewrite Z.land_spec, Z.bits_0 in Hc.
  rewrite Z.land_spec, Z.bits_0, testbit_u8, Z.lor_spec by exact Hn.
  destruct (Z.eq_dec n TWINT) as [-> | Hne].
  - change (Z.testbit (bit TWINT) TWINT) with true in Hc |- *.
    rewrite andb_true_r in Hc. rewrite Hc. reflexivity.
  - assert (Z.testbit (bit TWINT) n = false) as ->; [|apply andb_false_r].
    unfold bit, TWINT in *. rewrite Z.shiftl_1_l. apply Z.pow2_bits_false. lia.
Qed.

Lemma enable_twice c : u8 (Z.lor (u8 (Z.lor c (bit TWEN))) (bit TWEN)) = u8 (Z.lor c (bit TWEN)).
Proof.
  apply Z.bits_inj'. intros n Hn.
  rewrite !testbit_u8, !Z.lor_spec, testbit_u8, Z.lor_spec by exact Hn.
  destruct (n <? 8), (Z.testbit c n), (Z.testbit (bit TWEN) n); reflexivity.
Qed.

Lemma i2c_init_idle s :
  pending s = None -> Z.land (TWCR s) (bit TWINT) = 0 ->
  i2c_init s =
  Ret tt (State 18 (Z.land (TWSR s) 0xF8) (u8 (Z.lor (TWCR s) (bit TWEN)))
                (TWDR s) None (script s) (cursor s) (buf s)) [].
Proof.
  intros Hp Hc.
  unfold i2c_init, mbind, M_bind, modify, load_TWCR, read_TWCR. simpl.
  rewrite Hp. simpl. unfold write_TWCR. simpl.
  unfold flag_set. rewrite (flag_clear_enable _ Hc). simpl.
  rewrite Hc, Hp, !Z.lor_0_r. reflexivity.
Qed.


(** X8.  On an idle peripheral (no operation in flight, TWINT clear)
    [i2c_init] returns without an event on the bus and leaves TWBR = 18, the
    prescaler bits of TWSR at 0 with the status bits as they were, and TWEN
    set in TWCR with the other seven bits of TWCR as they were; TWDR, the
    bus and the buffer are untouched, and a second call changes nothing. *)
Theorem i2c_init_configures s :
  pending s = None -> Z.land (TWCR s) (bit TWINT) = 0 ->
  exists s',
    i2c_init s = Ret tt s' [] /\
    TWBR s' = 18 /\
    Z.land (TWSR s') 0x03 = 0 /\
    Z.land (TWSR s') 0xF8 = Z.land (TWSR s) 0xF8 /\
    Z.testbit (TWCR s') TWEN = true /\
    (forall n, 0 <= n < 8 -> n <> TWEN ->
       Z.testbit (TWCR s') n = Z.testbit (TWCR s) n) /\
    TWDR s' = TWDR s /\ pending s' = None /\ script s' = script s /\
    cursor s' = cursor s /\ buf s' = buf s /\
    i2c_init s' = Ret tt s' [].
Proof.
  intros Hp Hc. eexists. split; [apply (i2c_init_idle s Hp Hc)|].
  cbn [TWBR TWSR TWCR TWDR pending script cursor buf].
  split; [reflexivity|].
  split; [rewrite <- Z.land_assoc; apply Z.land_0_r|].
  split; [rewrite <- Z.land_assoc; reflexivity|].
  split.
  { rewrite testbit_u8, Z.lor_spec by (unfold TWEN; lia).
    change (Z.testbit (bit TWEN) TWEN) with true.
    rewrite orb_true_r. reflexivity. }
  split.
  { intros n Hn Hne. rewrite testbit_u8, Z.lor_spec by lia.
    assert (Z.testbit (bit TWEN) n = false) as ->.
    { unfold bit, TWEN in *. rewrite Z.shiftl_1_l. apply Z.pow2_bits_false. lia. }
    rewrite orb_false_r. destruct (Z.ltb_spec n 8); [reflexivity|lia]. }
  do 5 (split; [reflexivity|]).
  rewrite i2c_init_idle;
    cbn [TWBR TWSR TWCR TWDR pending script cursor buf];
    [|reflexivity|apply flag_clear_enable, Hc].
  rewrite enable_twice, <- Z.land_assoc. reflexivity.
Qed.

Lemma i2c_init_configures_witness :
  exists s',
    i2c_init (idle [] []) = Ret tt s' [] /\
    TWBR s' = 18 /\
    Z.land (TWSR s') 0x03 = 0 /\
    Z.land (TWSR s') 0xF8 = Z.land (TWSR (idle [] [])) 0xF8 /\
    Z.testbit (TWCR s') TWEN = true /\
    (forall n, 0 <= n < 8 -> n <> TWEN ->
       Z.testbit (TWCR s') n = Z.testbit (TWCR (idle [] [])) n) /\
    TWDR s' = TWDR (idle [] []) /\ pending s' = None /\
    script s' = script (idle [] []) /\
    cursor s' = cursor (idle [] []) /\ buf s' = buf (idle [] []) /\
    i2c_init s' = Ret tt s' [].
Proof.
  apply (i2c_init_configures (idle [] [])); reflexivity.
Defined.

Lemma i2c_init_clock_registers s s' tr :
  pending s = None -> i2c_init s = Ret tt s' tr ->
  TWBR s' = 18 /\ TWSR s' = Z.land (TWSR s) 0xF8.
Proof.
  intros Hp H.
  unfold i2c_init, mbind, M_bind, modify, load_TWCR, read_TWCR in H.
  simpl in H. rewrite Hp in H. simpl in H.
  unfold write_TWCR in H. simpl in H.
  repeat match type of H with
         | context [if ?c then _ else _] => destruct c
         end;
    injection H as <- _; simpl; rewrite Z.lor_0_r; auto.
Qed.

(** X9.  The bus clock [i2c_init] selects.  With the 16 MHz clock of the
    project, the formula quoted in the comment of [i2c_init] gives, for the
    registers the function leaves behind (TWBR = 18, prescaler bits 0),
    307692 Hz, not the 100 kHz the comment names; 100 kHz is what the
    formula gives for TWBR = 18 with prescaler bits 1, or for TWBR = 72 with
    prescaler bits 0. *)
Theorem i2c_init_clock s s' tr :
  pending s = None -> i2c_init s = Ret tt s' tr ->
  scl_frequency F_CPU (TWBR s') (Z.land (TWSR s') 0x03) = 307692 /\
  scl_frequency F_CPU 18 1 = 100000 /\
  scl_frequency F_CPU 72 0 = 100000.
Proof.
  intros Hp H. apply i2c_init_clock_registers in H as [-> ->]; [|exact Hp].
  rewrite <- Z.land_assoc. change (Z.land 248 3) with 0. rewrite Z.land_0_r.
  repeat split.
Qed.

Lemma i2c_init_clock_witness :
  scl_frequency F_CPU (TWBR (State 18 0xF8 4 0 None (answers []) 0 []))
    (Z.land (TWSR (State 18 0xF8 4 0 None (answers []) 0 [])) 0x03) = 307692 /\
  scl_frequency F_CPU 18 1 = 100000 /\
  scl_frequency F_CPU 72 0 = 100000.
Proof.
  apply (i2c_init_clock (idle [] []) (State 18 0xF8 4 0 None (answers []) 0 []) []);
    reflexivity.
Defined.

(** ** Accesses to the caller's buffer *)

Lemma safe_ret {A} N (a : A) : safe N (mret a).
Proof.
  intros s _. split; [discriminate|].
  intros a' s' tr H. apply ret_Ret in H as (_ & -> & ->).
  split; [reflexivity|]. intros e i [].
Qed.

Lemma safe_bind {A B} N (m : M A) (k : A -> M B) :
  safe N m -> (forall a, safe N (k a)) -> safe N (m ≫= k).
Proof.
  intros Hm Hk s Hs. destruct (Hm s Hs) as [Hf Hr]. split.
  - intros H. apply bind_Fault in H as [H | (a & s1 & t1 & H1 & H)]; [auto|].
    destruct (Hr _ _ _ H1) as [Hl _].
    apply (Hk a s1); [lia|exact H].
  - intros b s2 tr H.
    apply bind_Ret in H as (a & s1 & t1 & t2 & H1 & H2 & ->).
    destruct (Hr _ _ _ H1) as [Hl He].
    destruct (Hk a s1) as [_ Hr2]; [lia|].
    destruct (Hr2 _ _ _ H2) as [Hl2 He2].
    split; [lia|]. intros e i Hin. apply in_app_iff in Hin as [Hin|Hin]; eauto.
Qed.

Lemma safe_if {A} N (c : bool) (m1 m2 : M A) :
  safe N m1 -> safe N m2 -> safe N (if c then m1 else m2).
Proof. destruct c; auto. Qed.

Lemma safe_match {A B} N (q : option A) (f : A -> M B) (m : M B) :
  (forall a, safe N (f a)) -> safe N m ->
  safe N (match q with Some a => f a | None => m end).
Proof. destruct q; auto. Qed.

Ltac safe_prim Hno Hret :=
  intros s _; split; [apply Hno|];
  intros a s' tr H; apply Hret in H;
  repeat match type of H with _ /\ _ => destruct H as [? H] end; subst;
  split; [congruence|];
  intros e i [<-|[]]; discriminate.

Lemma safe_start N fuel : safe N (i2c_start fuel).
Proof. safe_prim i2c_start_no_Fault i2c_start_Ret. Qed.

Lemma safe_transmit N fuel b : safe N (i2c_transmit fuel b).
Proof. safe_prim i2c_transmit_no_Fault i2c_transmit_Ret. Qed.

Lemma safe_receive_ack N fuel : safe N (i2c_receive_ack fuel).
Proof. safe_prim i2c_receive_ack_no_Fault i2c_receive_ack_Ret. Qed.

Lemma safe_receive_nack N fuel : safe N (i2c_receive_nack fuel).
Proof. safe_prim i2c_receive_nack_no_Fault i2c_receive_nack_Ret. Qed.

Lemma safe_stop N : safe N i2c_stop.
Proof. safe_prim i2c_stop_no_Fault i2c_stop_Ret. Qed.

Lemma safe_check N c : safe N (i2c_check_status c).
Proof.
  intros s _. split; [apply i2c_check_status_no_Fault|].
  intros a s' tr H. apply i2c_check_status_Ret in H as [-> H].
  split; [reflexivity|].
  intros e i Hin. destruct H as [(_ & -> & _) | (_ & -> & _)];
    destruct Hin as [<-|[]]; discriminate.
Qed.

Lemma safe_load N i : 0 <= i -> (Z.to_nat i < N)%nat -> safe N (load i).
Proof.
  intros Hi Hn s Hs. split.
  - unfold load. destruct (buf s !! Z.to_nat i) eqn:E; [discriminate|].
    apply lookup_ge_None in E. lia.
  - intros a s' tr H. apply load_Ret in H as (-> & -> & _).
    split; [reflexivity|]. intros e j [<-|[]] [= <-]. lia.
Qed.

Lemma safe_store N i v : 0 <= i -> (Z.to_nat i < N)%nat -> safe N (store i v).
Proof.
  intros Hi Hn s Hs. split.
  - unfold store. destruct (Nat.ltb_spec (Z.to_nat i) (length (buf s)));
      [discriminate|lia].
  - intros a s' tr H. apply store_Ret in H as (-> & Hb & _ & _).
    split; [rewrite Hb; apply length_insert|].
    intros e j [<-|[]] [= <-]. lia.
Qed.

Ltac safe_step :=
  first
    [ apply safe_ret
    | apply safe_start
    | apply safe_transmit
    | apply safe_receive_ack
    | apply safe_receive_nack
    | apply safe_stop
    | apply safe_check
    | apply safe_if
    | apply safe_match; [intros ?|]
    | apply safe_bind; [|intros ?] ].

Lemma safe_transmit_loop N fuel n : forall i,
  0 <= i -> (Z.to_nat i + n <= N)%nat -> safe N (transmit_loop fuel n i).
Proof.
  induction n as [|n IH]; intros i Hi Hn; simpl.
  - apply safe_ret.
  - apply safe_bind; [apply safe_load; lia|intros b].
    apply safe_bind; [apply safe_transmit|intros _].
    apply safe_bind; [apply safe_check|intros r].
    apply safe_if; [repeat safe_step|].
    apply IH; lia.
Qed.

Lemma safe_receive_loop N fuel len n : forall i,
  0 <= i -> (Z.to_nat i + n <= N)%nat -> safe N (receive_loop fuel len n i).
Proof.
  induction n as [|n IH]; intros i Hi Hn; simpl.
  - apply safe_ret.
  - apply safe_if.
    + apply safe_bind; [apply safe_receive_nack|intros d].
      apply safe_bind; [apply safe_store; lia|intros _].
      apply safe_bind; [apply safe_check|intros r].
      apply safe_if; [repeat safe_step|].
      apply IH; lia.
    + apply safe_bind; [apply safe_receive_ack|intros d].
      apply safe_bind; [apply safe_store; lia|intros _].
      apply safe_bind; [apply safe_check|intros r].
      apply safe_if; [repeat safe_step|].
      apply IH; lia.
Qed.

(** X10.  Memory safety.  Called with a buffer of at least as many cells as
    the transfer moves (one for a single-byte read, [len] for a multi-byte
    transfer, none otherwise), a transfer function never reads or writes the
    buffer out of bounds, whatever the bus answers; a call that returns has
    kept the length of the buffer and has touched only the cells
    [0 .. len - 1]. *)
Theorem buffer_accesses_in_bounds fuel op s :
  (buffer_need op <= length (buf s))%nat ->
  run_op fuel op s <> Fault /\
  forall r s' tr, run_op fuel op s = Ret r s' tr ->
    length (buf s') = length (buf s) /\
    forall e i, In e tr -> access_index e = Some i ->
      0 <= i < Z.of_nat (buffer_need op).
Proof.
  revert s. change (safe (buffer_need op) (run_op fuel op)).
  destruct op; simpl;
    unfold i2c_is_device_connected, i2c_write_no_reg, i2c_write_with_reg,
      i2c_write_multi_no_reg, i2c_write_multi_with_reg, i2c_read_no_reg,
      i2c_read_with_reg, i2c_read_multi_no_reg, i2c_read_multi_with_reg.
  all: repeat first
        [ apply safe_transmit_loop; [lia|simpl; lia]
        | apply safe_receive_loop; [lia|simpl; lia]
        | apply safe_store; [lia|simpl; lia]
        | safe_step ].
Qed.

Lemma buffer_accesses_in_bounds_witness :
  run_op 3 (ReadMultiNoReg 0x68 2)
    (idle [answer 0x08 0; answer 0x40 0; answer 0x50 7; answer 0x58 9] [0; 0; 5])
    <> Fault /\
  forall r s' tr,
    run_op 3 (ReadMultiNoReg 0x68 2)
      (idle [answer 0x08 0; answer 0x40 0; answer 0x50 7; answer 0x58 9] [0; 0; 5])
    = Ret r s' tr ->
    length (buf s') =
    length (buf (idle [answer 0x08 0; answer 0x40 0; answer 0x50 7; answer 0x58 9]
                      [0; 0; 5])) /\
    forall e i, In e tr -> access_index e = Some i ->
      0 <= i < Z.of_nat (buffer_need (ReadMultiNoReg 0x68 2)).
Proof.
  apply (buffer_accesses_in_bounds 3 (ReadMultiNoReg 0x68 2)
    (idle [answer 0x08 0; answer 0x40 0; answer 0x50 7; answer 0x58 9] [0; 0; 5])).
  simpl. lia.
Defined.

(** ** Single-byte reads and empty writes as instances of the multi-byte
    functions *)

Ltac same_prim m :=
  lazymatch m with
  | i2c_start _ _ => idtac
  | i2c_transmit _ _ _ => idtac
  | i2c_receive_nack _ _ => idtac
  | i2c_check_status _ _ => idtac
  | i2c_stop _ => idtac
  | store _ _ _ => idtac
  end.

Ltac same_run :=
  unfold mbind, M_bind, mret, M_ret; cbv beta;
  repeat match goal with
         | |- context [match ?m with _ => _ end] =>
             same_prim m; destruct m; cbn [prefix_trace]
         | |- context [if ?c then _ else _] => destruct c; cbn [prefix_trace]
         end;
  cbn [app]; rewrite ?app_nil_r, <- ?app_assoc; reflexivity.

(** X11.  A single-byte read is the multi-byte read of length one, and a
    multi-byte write of length zero is the device probe: on every state the
    two calls have the same result, final state and trace, and block or
    fault together. *)
Theorem single_transfers_as_multi fuel a reg s :
  i2c_read_no_reg fuel a s = i2c_read_multi_no_reg fuel a 1 s /\
  i2c_read_with_reg fuel a reg s = i2c_read_multi_with_reg fuel a reg 1 s /\
  i2c_write_multi_no_reg fuel a 0 s = i2c_is_device_connected fuel a s.
Proof.
  unfold i2c_read_no_reg, i2c_read_multi_no_reg, i2c_read_with_reg,
    i2c_read_multi_with_reg, i2c_write_multi_no_reg, i2c_is_device_connected.
  change (Z.to_nat 1) with 1%nat. change (Z.to_nat 0) with 0%nat.
  cbn [receive_loop transmit_loop].
  change (0 =? 1 - 1) with true. cbv iota.
  repeat split; same_run.
Qed.

(** ** Single-byte reads *)

(** C9.  In [i2c_read_no_reg] and [i2c_read_with_reg] the byte read from TWDR
    is stored through [data] before the last status check.  When the bus
    acknowledges the phases before the data phase (start and address, and
    for the register read the register byte, the repeated start and the
    second address), the run receives one byte, stores it in [data[0]],
    checks the status against data received, NACK returned, and releases
    the bus: the stored byte is the data register, the answer of the bus to
    the receive operation, whether the check then passes (SUCCESS) or fails
    (ERROR).  When one of the earlier phases fails, the run returns ERROR,
    receives and stores nothing, and the buffer is as it was. *)
Theorem single_read_stores_before_check fuel op s r s' tr :
  is_single_read op = true ->
  run_op fuel op s = Ret r s' tr ->
  if answers_match s 0 (address_codes op) then
    exists ok,
      tr = preamble op ++
           [EvReceiveNack; EvStore 0 (TWDR s');
            EvCheck MT_DATA_RECEIVED_NACK ok; EvStop] /\
      TWDR s' = u8 (r_data (script s (cursor s + first_data_answer op)%nat)) /\
      buf s' = <[0%nat := TWDR s']> (buf s) /\
      ok = (answer_status s (first_data_answer op) =? MT_DATA_RECEIVED_NACK) /\
      r = (if ok then SUCCESS else ERROR)
  else
    r = ERROR /\ buf s' = buf s /\ existsb is_inbound tr = false.
Proof.
  intros Hop H.
  destruct (tracks_run_op fuel op s r s' tr H) as (_ & Hj & Hv).
  destruct op; try discriminate Hop; simpl in H;
    unfold_ops H; run H; norm_trace.
  all: cbn [judged honest advance view_of v_status v_cursor v_data] in Hj.
  all: cbn [app judged honest advance v_status v_cursor v_data view_of] in Hj.
  all: apply (f_equal v_data) in Hv;
    cbn [app replay fold_left advance v_status v_cursor v_data view_of] in Hv.
  all: unfold address_codes;
    cbn [first_data_answer expected_codes take answers_match preamble app];
    unfold answer_status, sla; rewrite ?Nat.add_succ_r, ?Nat.add_0_r.
  all: repeat match type of Hj with
              | _ /\ _ => let Hh := fresh "Hh" in destruct Hj as [Hh Hj]
              end.
  all: repeat match goal with
              | Hh : _ = (_ =? _) |- _ => rewrite <- Hh; clear Hh
              end.
  all: cbn [andb].
  all: change (Z.to_nat 0) with 0%nat in *.
  all: try (split; [reflexivity|]; split; [congruence|reflexivity]).
  all: subst; rewrite ?Hd1, ?Hd0 in *.
  all: eexists; split; [reflexivity|]; split; [exact Hv|];
    split; [congruence|]; split; reflexivity.
Qed.

Lemma single_read_stores_before_check_witness :
  let s0 := idle [answer 0x08 0; answer 0x40 0; answer 0x38 0xAB] [0] in
  let s1 := State 0 0x38 0x14 0xAB None (script s0) 3 [0xAB] in
  let t0 := idle [answer 0x08 0; answer 0x18 0; answer 0x28 0; answer 0x10 0;
                  answer 0x40 0; answer 0x38 0xCD] [0] in
  let t1 := State 0 0x38 0x14 0xCD None (script t0) 6 [0xCD] in
  (run_op 1 (ReadNoReg 0x68) s0
   = Ret ERROR s1
       [EvStart; EvCheck MT_START true; EvTransmit 0xD1;
        EvCheck MT_SLA_READ_ACK true; EvReceiveNack; EvStore 0 0xAB;
        EvCheck MT_DATA_RECEIVED_NACK false; EvStop] /\
   buf s1 = <[0%nat := TWDR s1]> (buf s0)) /\
  (run_op 1 (ReadWithReg 0x68 0x75) t0
   = Ret ERROR t1
       [EvStart; EvCheck MT_START true; EvTransmit 0xD0;
        EvCheck MT_SLA_WRITE_ACK true; EvTransmit 0x75;
        EvCheck MT_DATA_TRANSMITTED_ACK true; EvStart; EvCheck MT_REP_START true;
        EvTransmit 0xD1; EvCheck MT_SLA_READ_ACK true;
        EvReceiveNack; EvStore 0 0xCD;
        EvCheck MT_DATA_RECEIVED_NACK false; EvStop] /\
   buf t1 = <[0%nat := TWDR t1]> (buf t0)).
Proof.
  intros s0 s1 t0 t1. split.
  - assert (run_op 1 (ReadNoReg 0x68) s0
            = Ret ERROR s1
                [EvStart; EvCheck MT_START true; EvTransmit 0xD1;
                 EvCheck MT_SLA_READ_ACK true; EvReceiveNack; EvStore 0 0xAB;
                 EvCheck MT_DATA_RECEIVED_NACK false; EvStop]) as Hrun
      by (vm_compute; reflexivity).
    split; [exact Hrun|].
    pose proof (single_read_stores_before_check 1 (ReadNoReg 0x68) s0 _ _ _
                  eq_refl Hrun) as H.
    assert (answers_match s0 0 (address_codes (ReadNoReg 0x68)) = true) as Ha
      by reflexivity.
    rewrite Ha in H. destruct H as (ok & _ & _ & Hb & _). exact Hb.
  - assert (run_op 1 (ReadWithReg 0x68 0x75) t0
            = Ret ERROR t1
                [EvStart; EvCheck MT_START true; EvTransmit 0xD0;
                 EvCheck MT_SLA_WRITE_ACK true; EvTransmit 0x75;
                 EvCheck MT_DATA_TRANSMITTED_ACK true; EvStart;
                 EvCheck MT_REP_START true;
                 EvTransmit 0xD1; EvCheck MT_SLA_READ_ACK true;
                 EvReceiveNack; EvStore 0 0xCD;
                 EvCheck MT_DATA_RECEIVED_NACK false; EvStop]) as Hrun
      by (vm_compute; reflexivity).
    split; [exact Hrun|].
    pose proof (single_read_stores_before_check 1 (ReadWithReg 0x68 0x75) t0 _ _ _
                  eq_refl Hrun) as H.
    assert (answers_match t0 0 (address_codes (ReadWithReg 0x68 0x75)) = true)
      as Ha by reflexivity.
    rewrite Ha in H. destruct H as (ok & _ & _ & Hb & _). exact Hb.
Defined.

(** ** The repeated start of the register-addressed reads *)

Lemma repeated_starts_none tr : forall held,
  ~ In EvStart tr -> repeated_starts held tr = 0%nat.
Proof.
  induction tr as [|e tr IH]; intros held Hn; [reflexivity|].
  destruct e; simpl; try (apply IH; intros Hin; apply Hn; right; exact Hin).
  exfalso. apply Hn. left. reflexivity.
Qed.

Ltac start_free :=
  let Hin := fresh "Hin" in
  intros Hin; simpl in Hin; rewrite ?in_app_iff in Hin; simpl in Hin;
  repeat (destruct Hin as [Hin|Hin]);
  first [ contradiction | discriminate Hin
        | eapply no_start_ack_phases, Hin | eapply no_start_tx_phases, Hin ].

(** C4.  A run of [i2c_read_with_reg] or [i2c_read_multi_with_reg] in which
    the bus answers the start, SLA+W and register phases with the expected
    codes contains exactly one repeated start: it comes right after the check
    of the register byte, it is checked against MT_REP_START (0x10) and not
    against MT_START, and when that check passes SLA+R is the next byte
    transmitted (when it fails the run ends there with ERROR).  A run in
    which one of those three phases fails returns ERROR before that point and
    contains no repeated start.  So not every run contains one, but every
    run that returns SUCCESS does, exactly once. *)
Theorem reg_read_repeated_start fuel op a reg s r s' tr :
  reg_read_args op = Some (a, reg) ->
  run_op fuel op s = Ret r s' tr ->
  (if answers_match s 0 register_codes then
     exists ok rest,
       tr = [EvStart; EvCheck MT_START true;
             EvTransmit (sla a I2C_WRITE); EvCheck MT_SLA_WRITE_ACK true;
             EvTransmit reg; EvCheck MT_DATA_TRANSMITTED_ACK true;
             EvStart; EvCheck MT_REP_START ok] ++ rest /\
       ok = (answer_status s 3 =? MT_REP_START) /\
       (if ok
        then exists ok' rest',
               rest = EvTransmit (sla a I2C_READ)
                        :: EvCheck MT_SLA_READ_ACK ok' :: rest'
        else rest = [] /\ r = ERROR) /\
       ~ In EvStart rest /\
       repeated_starts false tr = 1%nat
   else
     r = ERROR /\ repeated_starts false tr = 0%nat) /\
  (r = SUCCESS -> repeated_starts false tr = 1%nat) /\
  MT_REP_START = 0x10.
Proof.
  intros Hop H.
  destruct (tracks_run_op fuel op s r s' tr H) as (_ & Hj & _).
  destruct op; try discriminate Hop; injection Hop as -> ->; simpl in H;
    unfold_ops H; run H; try run_loop H; norm_trace.
  all: rewrite <- ?app_assoc in Hj;
    cbn [app judged honest advance v_status v_cursor v_data view_of] in Hj.
  all: cbn [register_codes answers_match];
    unfold answer_status, sla; rewrite ?Nat.add_succ_r, ?Nat.add_0_r.
  all: repeat match type of Hj with
              | _ /\ _ => let Hh := fresh "Hh" in destruct Hj as [Hh Hj]
              end.
  all: repeat match goal with
              | Hh : _ = (_ =? _) |- _ => rewrite <- Hh; clear Hh
              end.
  all: cbn [andb].
  all: split; [|split; [|reflexivity]].
  all: try (intros Hr; discriminate Hr).
  all: try (split; reflexivity).
  all: try (intros _).
  all: try (eexists; eexists; split; [reflexivity|]; split; [reflexivity|];
            cbv iota; split;
            [first [eexists; eexists; reflexivity | split; reflexivity]|];
            split; [start_free|]).
  all: cbn [repeated_starts Nat.add]; try reflexivity.
  all: f_equal; apply repeated_starts_none; start_free.
Qed.

Lemma reg_read_repeated_start_witness :
  let s0 := idle [answer 0x08 0; answer 0x18 0; answer 0x28 0; answer 0x10 0;
                  answer 0x40 0; answer 0x58 0x2A] [0] in
  let s1 := State 0 0x58 0x14 0x2A None (script s0) 6 [0x2A] in
  let tr0 := [EvStart; EvCheck MT_START true; EvTransmit 0xD0;
              EvCheck MT_SLA_WRITE_ACK true;
              EvTransmit 0x00; EvCheck MT_DATA_TRANSMITTED_ACK true;
              EvStart; EvCheck MT_REP_START true; EvTransmit 0xD1;
              EvCheck MT_SLA_READ_ACK true; EvReceiveNack; EvStore 0 0x2A;
              EvCheck MT_DATA_RECEIVED_NACK true; EvStop] in
  let t0 := idle [answer 0x08 0; answer 0x18 0; answer 0x28 0; answer 0x10 0;
                  answer 0x40 0; answer 0x50 1; answer 0x58 2] [0; 0] in
  let t1 := State 0 0x58 0x14 2 None (script t0) 7 [1; 2] in
  let tr1 := [EvStart; EvCheck MT_START true; EvTransmit 0xD0;
              EvCheck MT_SLA_WRITE_ACK true;
              EvTransmit 0x00; EvCheck MT_DATA_TRANSMITTED_ACK true;
              EvStart; EvCheck MT_REP_START true; EvTransmit 0xD1;
              EvCheck MT_SLA_READ_ACK true;
              EvReceiveAck; EvStore 0 1; EvCheck MT_DATA_RECEIVED_ACK true;
              EvReceiveNack; EvStore 1 2;
              EvCheck MT_DATA_RECEIVED_NACK true; EvStop] in
  (run_op 1 (ReadWithReg 0x68 0x00) s0 = Ret SUCCESS s1 tr0 /\
   repeated_starts false tr0 = 1%nat) /\
  (run_op 1 (ReadMultiWithReg 0x68 0x00 2) t0 = Ret SUCCESS t1 tr1 /\
   repeated_starts false tr1 = 1%nat).
Proof.
  intros s0 s1 tr0 t0 t1 tr1. split.
  - assert (run_op 1 (ReadWithReg 0x68 0x00) s0 = Ret SUCCESS s1 tr0) as Hrun
      by (vm_compute; reflexivity).
    split; [exact Hrun|].
    exact (proj1 (proj2 (reg_read_repeated_start 1 (ReadWithReg 0x68 0x00)
                           0x68 0x00 s0 SUCCESS s1 tr0 eq_refl Hrun)) eq_refl).
  - assert (run_op 1 (ReadMultiWithReg 0x68 0x00 2) t0 = Ret SUCCESS t1 tr1)
      as Hrun by (vm_compute; reflexivity).
    split; [exact Hrun|].
    exact (proj1 (proj2 (reg_read_repeated_start 1 (ReadMultiWithReg 0x68 0x00 2)
                           0x68 0x00 t0 SUCCESS t1 tr1 eq_refl Hrun)) eq_refl).
Defined.

(** A register-addressed read whose SLA+W is not acknowledged (status 0x20)
    returns ERROR after start, SLA+W and stop: its run contains no repeated
    start. *)
Lemma reg_read_abort_without_repeated_start :
  run_op 1 (ReadWithReg 0x68 0x00) (idle [answer 0x08 0; answer 0x20 0] [0])
  = Ret ERROR
      (State 0 0x20 0x14 0 None (answers [answer 0x08 0; answer 0x20 0]) 2 [0])
      [EvStart; EvCheck MT_START true; EvTransmit 0xD0;
       EvCheck MT_SLA_WRITE_ACK false; EvStop] /\
  repeated_starts false
    [EvStart; EvCheck MT_START true; EvTransmit 0xD0;
     EvCheck MT_SLA_WRITE_ACK false; EvStop] = 0%nat /\
  ~ In EvStart [EvCheck MT_START true; EvTransmit 0xD0;
                EvCheck MT_SLA_WRITE_ACK false; EvStop].
Proof.
  split; [vm_compute; reflexivity|]. split; [reflexivity|].
  intros Hin. simpl in Hin. intuition discriminate.
Qed.
